(** * Paper-trading ledger: a shallow embedding of [portfolioManager.js]

    The module under verification keeps one JSON file holding a portfolio
    (cash balance, open positions, closed trades, realised P/L) and exposes
    six [async] functions over it.  Every function awaits a read of the
    file, works on the parsed object and, when it has changed it, awaits a
    write of the whole object back.

    Conventions of the embedding:
    - JavaScript numbers are idealised as exact rationals ([Q]); rounding
      and overflow of IEEE doubles are outside the model.  The two
      percentages are the only divisions by a value that can be zero; they
      are optional numbers, absent where the code yields [NaN] or an
      infinity ([js_percent]).
    - [async] functions are terms of a small inductive type of programs
      whose nodes are the awaited file operations.  One interpreter runs a
      program alone ([run]); another advances one program by one awaited
      operation ([step]), which gives the interleavings of the event loop.
      The code between two awaited operations works on objects of its own
      call only, so the file is all that two calls share.  For a call run
      alone a read and a write of the file are each one event; for two
      calls in flight a write is two events, the opening that truncates the
      file and the completion that puts the text ([event]).
    - The two clock reads, [Date.now()] and [new Date().toISOString()], are
      inputs of each call ([Clock]).
    - A thrown [Error] is a value of [Error]; each constructor stands for
      one message (or one system / parser exception) of the source. *)

From Stdlib Require Import QArith ZArith Ascii String List DecimalString DecimalZ Lia Lqa.
From stdpp Require Import base option list strings.
Import ListNotations.

Local Open Scope string_scope.
Local Open Scope list_scope.

(** ** Data model *)

(** An element of [portfolio.openPositions]: the object literal built by
    [buyStock] ([type: 'stock']) or by [buyOption] ([type: 'option']). *)
Inductive Position : Type :=
| Stock (id symbol : string) (shares entryPrice : Q)
        (entryDate : string) (costBasis : Q)
| Option (id optionType symbol : string) (strike : Q) (expiration : string)
         (contracts entryPremium : Q) (entryDate : string) (costBasis : Q).

Definition pos_id (p : Position) : string :=
  match p with
  | Stock id _ _ _ _ _ => id
  | Option id _ _ _ _ _ _ _ _ => id
  end.

Definition pos_symbol (p : Position) : string :=
  match p with
  | Stock _ symbol _ _ _ _ => symbol
  | Option _ _ symbol _ _ _ _ _ _ => symbol
  end.

Definition pos_costBasis (p : Position) : Q :=
  match p with
  | Stock _ _ _ _ _ costBasis => costBasis
  | Option _ _ _ _ _ _ _ _ costBasis => costBasis
  end.

(** [p.type === 'stock'] *)
Definition is_stock (p : Position) : bool :=
  match p with Stock _ _ _ _ _ _ => true | Option _ _ _ _ _ _ _ _ _ => false end.

(** [position.shares] for a stock and [position.contracts] for an option. *)
Definition pos_quantity (p : Position) : Q :=
  match p with
  | Stock _ _ shares _ _ _ => shares
  | Option _ _ _ _ _ contracts _ _ _ => contracts
  end.

(** [(x / y) * 100] as the code computes the two percentages, [y] being a
    cost basis.  When [y] is zero the quotient is [NaN] or an infinity and
    so is the product; [JSON.stringify] writes such a value as [null].
    [None] stands for such a value. *)
Definition js_percent (x y : Q) : option Q :=
  if Qeq_bool y 0 then None else Some ((x / y) * 100)%Q.

(** An element of [portfolio.closedTrades]: [{...position, exitPrice |
    exitPremium, exitDate, proceeds, profitLoss, percentReturn}].  [ct_exit]
    is the [exitPrice] of a stock trade and the [exitPremium] of an option
    trade. *)
Record ClosedTrade : Type := mkClosedTrade {
  ct_position : Position;
  ct_exit : Q;
  exitDate : string;
  proceeds : Q;
  profitLoss : Q;
  percentReturn : option Q
}.

Record Portfolio : Type := mkPortfolio {
  balance : Q;
  openPositions : list Position;
  closedTrades : list ClosedTrade;
  totalPL : Q;
  createdAt : string
}.

(** The readings of the system clock taken by one call. *)
Record Clock : Type := mkClock {
  Date_now : Z;            (* Date.now(), milliseconds *)
  toISOString : string     (* new Date().toISOString() *)
}.

(** [n.toString()] of an integral number: its decimal numeral. *)
Definition toString (n : Z) : string := NilZero.string_of_int (Z.to_int n).

(** ** Errors and results *)

Inductive Error : Type :=
| InsufficientFunds (available required : Q)
    (* `Insufficient funds. Available: $..., Required: $...` *)
| NoOpenPosition (symbol : string)
    (* `No open position found for ${symbol}` *)
| PositionNotFound          (* 'Position not found' *)
| NotAnOption               (* 'Position is not an option' *)
| ENOENT                    (* fs.readFile: no such file *)
| SyntaxError               (* JSON.parse: the text is not JSON *)
| TypeError                 (* property access on undefined *)
| QuoteError.               (* the price callback rejected *)

Inductive Result (A : Type) : Type :=
| Ok (a : A)
| Err (e : Error).
Arguments Ok {A} a.
Arguments Err {A} e.

Definition is_ok {A} (r : Result A) : bool :=
  match r with Ok _ => true | Err _ => false end.

Definition rbind {A B} (r : Result A) (f : A → Result B) : Result B :=
  match r with Ok a => f a | Err e => Err e end.

(** [try { body } catch (err) { handler }] for synchronous code. *)
Definition try_catch {A} (body : Result A) (handler : Error → Result A) : Result A :=
  match body with Ok a => Ok a | Err e => handler e end.

(** [Promise.all(xs.map(f))] for callbacks without file effects: the first
    rejection rejects the whole. *)
Fixpoint Promise_all {A B} (f : A → Result B) (xs : list A) : Result (list B) :=
  match xs with
  | [] => Ok []
  | x :: xs' =>
      rbind (f x) (λ y, rbind (Promise_all f xs') (λ ys, Ok (y :: ys)))
  end.

(** ** The portfolio file *)

(** What [PORTFOLIO_FILE] holds: the text written by [JSON.stringify] for
    some portfolio (which [JSON.parse] reads back), or text that is not
    JSON. *)
Inductive FileContent : Type :=
| Serialized (p : Portfolio)
| Garbage.

Inductive Store : Type :=
| NoFile
| File (c : FileContent).

Definition JSON_parse (data : FileContent) : Result Portfolio :=
  match data with
  | Serialized p => Ok p
  | Garbage => Err SyntaxError
  end.

Definition JSON_stringify (p : Portfolio) : FileContent := Serialized p.

(** The portfolio a store holds, when it holds one. *)
Definition persisted (s : Store) : option Portfolio :=
  match s with
  | File (Serialized p) => Some p
  | _ => None
  end.

(** ** Asynchronous programs *)

(** An [async] function body, cut at its awaited file operations.  Writes
    always succeed. *)
Inductive Async (A : Type) : Type :=
| Return (r : Result A)
| ReadFile (k : Result FileContent → Async A)
| WriteFile (data : FileContent) (k : unit → Async A).
Arguments Return {A} r.
Arguments ReadFile {A} k.
Arguments WriteFile {A} data k.

Fixpoint abind {A B} (m : Async A) (f : A → Async B) : Async B :=
  match m with
  | Return (Ok a) => f a
  | Return (Err e) => Return (Err e)
  | ReadFile k => ReadFile (λ r, abind (k r) f)
  | WriteFile d k => WriteFile d (λ u, abind (k u) f)
  end.

Definition throw {A} (e : Error) : Async A := Return (Err e).
Definition resolve {A} (a : A) : Async A := Return (Ok a).

(** [const x = await m; k] *)
Notation "'let*' x := m 'in' k" := (abind m (λ x, k))
  (at level 10, x name, m at level 100, k at level 200,
   format "'let*'  x  :=  m  'in' '//' k").

(** The effect on the store of a file operation that nothing disturbs: a
    read finds the whole text, a write leaves the whole text.  (For writes
    that overlap see [put].) *)
Definition fs_readFile (s : Store) : Result FileContent :=
  match s with
  | NoFile => Err ENOENT
  | File c => Ok c
  end.

Definition fs_writeFile (data : FileContent) (s : Store) : Store := File data.

(** Running a program alone, with nothing interleaved: each file operation
    completes before anything else touches the file. *)
Fixpoint run {A} (m : Async A) (s : Store) : Result A * Store :=
  match m with
  | Return r => (r, s)
  | ReadFile k => run (k (fs_readFile s)) s
  | WriteFile d k => run (k tt) (fs_writeFile d s)
  end.


(** ** The functions of [portfolioManager.js] *)

Definition initializePortfolio (clk : Clock) : Portfolio :=
  {| balance := 1000000;
     openPositions := [];
     closedTrades := [];
     totalPL := 0;
     createdAt := toISOString clk |}.

Definition savePortfolio (portfolio : Portfolio) : Async unit :=
  WriteFile (JSON_stringify portfolio) (λ _, resolve tt).

(** [try { data = await readFile; return JSON.parse(data) } catch { ... }]:
    the handler runs for every exception of the body. *)
Definition loadPortfolio (clk : Clock) : Async Portfolio :=
  ReadFile (λ r,
    match rbind r JSON_parse with
    | Ok portfolio => resolve portfolio
    | Err _ =>
        let newPortfolio := initializePortfolio clk in
        (let* _ := savePortfolio newPortfolio in
         resolve newPortfolio)
    end).

(** [x > y] on numbers. *)
Definition Qgtb (x y : Q) : bool := negb (Qle_bool x y).

(** [arr.findIndex(f)], with [None] for [-1]. *)
Fixpoint findIndex {A} (f : A → bool) (l : list A) : option nat :=
  match l with
  | [] => None
  | x :: l' => if f x then Some 0%nat else S <$> findIndex f l'
  end.

(** [p => p.type === 'stock' && p.symbol === symbol], the test [sellStock]
    passes to [findIndex]. *)
Definition sells (symbol : string) (p : Position) : bool :=
  is_stock p && String.eqb (pos_symbol p) symbol.

(** [p => p.id === positionId], the test [closeOption] passes to
    [findIndex]. *)
Definition has_id (positionId : string) (p : Position) : bool :=
  String.eqb (pos_id p) positionId.

Record OpenResult : Type := mkOpenResult {
  position : Position;
  open_newBalance : Q
}.

Record CloseResult : Type := mkCloseResult {
  trade : ClosedTrade;
  close_newBalance : Q
}.

Definition buyStock (symbol : string) (shares price : Q) (clk : Clock)
  : Async OpenResult :=
  (let* portfolio := loadPortfolio clk in
   let cost := (shares * price)%Q in
   if Qgtb cost (balance portfolio) then
     throw (InsufficientFunds (balance portfolio) cost)
   else
     let position :=
       Stock (toString (Date_now clk)) symbol shares price
             (toISOString clk) cost in
     let portfolio' :=
       {| balance := (balance portfolio - cost)%Q;
          openPositions := openPositions portfolio ++ [position];
          closedTrades := closedTrades portfolio;
          totalPL := totalPL portfolio;
          createdAt := createdAt portfolio |} in
     let* _ := savePortfolio portfolio' in
     resolve {| position := position;
                open_newBalance := balance portfolio' |}).

Definition sellStock (symbol : string) (currentPrice : Q) (clk : Clock)
  : Async CloseResult :=
  (let* portfolio := loadPortfolio clk in
   match findIndex (sells symbol) (openPositions portfolio) with
   | None => throw (NoOpenPosition symbol)
   | Some positionIndex =>
       match openPositions portfolio !! positionIndex with
       | None => throw TypeError
       | Some position =>
           let proceeds := (pos_quantity position * currentPrice)%Q in
           let profitLoss := (proceeds - pos_costBasis position)%Q in
           let percentReturn :=
             js_percent profitLoss (pos_costBasis position) in
           let closedTrade :=
             {| ct_position := position;
                ct_exit := currentPrice;
                exitDate := toISOString clk;
                proceeds := proceeds;
                profitLoss := profitLoss;
                percentReturn := percentReturn |} in
           let portfolio' :=
             {| balance := (balance portfolio + proceeds)%Q;
                openPositions := delete positionIndex (openPositions portfolio);
                closedTrades := closedTrades portfolio ++ [closedTrade];
                totalPL := (totalPL portfolio + profitLoss)%Q;
                createdAt := createdAt portfolio |} in
           let* _ := savePortfolio portfolio' in
           resolve {| trade := closedTrade;
                      close_newBalance := balance portfolio' |}
       end
   end).

Definition buyOption (symbol type : string) (strike : Q) (expiration : string)
    (premium contracts : Q) (clk : Clock) : Async OpenResult :=
  (let* portfolio := loadPortfolio clk in
   let cost := (premium * 100 * contracts)%Q in
   if Qgtb cost (balance portfolio) then
     throw (InsufficientFunds (balance portfolio) cost)
   else
     let position :=
       Option (toString (Date_now clk)) type symbol strike expiration
              contracts premium (toISOString clk) cost in
     let portfolio' :=
       {| balance := (balance portfolio - cost)%Q;
          openPositions := openPositions portfolio ++ [position];
          closedTrades := closedTrades portfolio;
          totalPL := totalPL portfolio;
          createdAt := createdAt portfolio |} in
     let* _ := savePortfolio portfolio' in
     resolve {| position := position;
                open_newBalance := balance portfolio' |}).

Definition closeOption (positionId : string) (exitPremium : Q) (clk : Clock)
  : Async CloseResult :=
  (let* portfolio := loadPortfolio clk in
   match findIndex (has_id positionId) (openPositions portfolio) with
   | None => throw PositionNotFound
   | Some positionIndex =>
       match openPositions portfolio !! positionIndex with
       | None => throw TypeError
       | Some position =>
           if is_stock position then throw NotAnOption
           else
             let proceeds := (exitPremium * 100 * pos_quantity position)%Q in
             let profitLoss := (proceeds - pos_costBasis position)%Q in
             let percentReturn :=
               js_percent profitLoss (pos_costBasis position) in
             let closedTrade :=
               {| ct_position := position;
                  ct_exit := exitPremium;
                  exitDate := toISOString clk;
                  proceeds := proceeds;
                  profitLoss := profitLoss;
                  percentReturn := percentReturn |} in
             let portfolio' :=
               {| balance := (balance portfolio + proceeds)%Q;
                  openPositions := delete positionIndex (openPositions portfolio);
                  closedTrades := closedTrades portfolio ++ [closedTrade];
                  totalPL := (totalPL portfolio + profitLoss)%Q;
                  createdAt := createdAt portfolio |} in
             let* _ := savePortfolio portfolio' in
             resolve {| trade := closedTrade;
                        close_newBalance := balance portfolio' |}
       end
   end).

Definition resetPortfolio (clk : Clock) : Async Portfolio :=
  (let newPortfolio := initializePortfolio clk in
   let* _ := savePortfolio newPortfolio in
   resolve newPortfolio).

(** An element of the [openPositions] array returned by [getPortfolio]:
    [{...position, currentPrice | underlyingPrice, currentValue,
    unrealizedPL, unrealizedPercent}].  [quote] is the looked-up price, which
    the fallback object of the [catch] branch does not carry. *)
Record ValuedPosition : Type := mkValuedPosition {
  vp_position : Position;
  quote : option Q;
  currentValue : Q;
  unrealizedPL : Q;
  unrealizedPercent : option Q
}.

Record PortfolioView : Type := mkPortfolioView {
  view_balance : Q;
  view_openPositions : list ValuedPosition;
  view_closedTrades : list ClosedTrade;
  view_totalPL : Q;
  totalUnrealizedPL : Q;
  totalPortfolioValue : Q;
  totalReturn : Q;
  totalReturnPercent : Q
}.

(** The callback mapped over [portfolio.openPositions] by [getPortfolio]. *)
Definition valuePosition (getCurrentPrice : string → Result Q)
    (position : Position) : Result ValuedPosition :=
  try_catch
    (rbind (getCurrentPrice (pos_symbol position)) (λ currentPrice,
       if is_stock position then
         let currentValue := (pos_quantity position * currentPrice)%Q in
         let unrealizedPL := (currentValue - pos_costBasis position)%Q in
         let unrealizedPercent :=
           js_percent unrealizedPL (pos_costBasis position) in
         Ok {| vp_position := position;
               quote := Some currentPrice;
               currentValue := currentValue;
               unrealizedPL := unrealizedPL;
               unrealizedPercent := unrealizedPercent |}
       else
         Ok {| vp_position := position;
               quote := Some currentPrice;
               currentValue := pos_costBasis position;
               unrealizedPL := 0;
               unrealizedPercent := Some 0%Q |}))
    (λ err,
       Ok {| vp_position := position;
             quote := None;
             currentValue := pos_costBasis position;
             unrealizedPL := 0;
             unrealizedPercent := Some 0%Q |}).

(** [xs.reduce((sum, x) => sum + f(x), 0)] *)
Definition reduce_sum {A} (f : A → Q) (xs : list A) : Q :=
  fold_left (λ sum x, (sum + f x)%Q) xs 0%Q.

Definition getPortfolio (getCurrentPrice : string → Result Q) (clk : Clock)
  : Async PortfolioView :=
  let* portfolio := loadPortfolio clk in
  let* openPositionsWithValues :=
    Return (Promise_all (valuePosition getCurrentPrice)
                        (openPositions portfolio)) in
  let totalPortfolioValue :=
    (balance portfolio + reduce_sum currentValue openPositionsWithValues)%Q in
  let totalUnrealizedPL := reduce_sum unrealizedPL openPositionsWithValues in
  resolve {| view_balance := balance portfolio;
             view_openPositions := openPositionsWithValues;
             view_closedTrades := closedTrades portfolio;
             view_totalPL := totalPL portfolio;
             totalUnrealizedPL := totalUnrealizedPL;
             totalPortfolioValue := totalPortfolioValue;
             totalReturn := (totalPortfolioValue - 1000000)%Q;
             totalReturnPercent :=
               (((totalPortfolioValue - 1000000) / 1000000) * 100)%Q |}.

(** ** Sequences of calls *)

(** A call of one of the five mutating exports, with its arguments. *)
Inductive Op : Type :=
| BuyStock (symbol : string) (shares price : Q)
| SellStock (symbol : string) (currentPrice : Q)
| BuyOption (symbol type : string) (strike : Q) (expiration : string)
            (premium contracts : Q)
| CloseOption (positionId : string) (exitPremium : Q)
| ResetPortfolio.

Inductive Response : Type :=
| Opened (r : OpenResult)
| Closed (r : CloseResult)
| WasReset (p : Portfolio).

Definition amap {A B} (f : A → B) (m : Async A) : Async B :=
  let* a := m in resolve (f a).

Definition perform (op : Op) (clk : Clock) : Async Response :=
  match op with
  | BuyStock symbol shares price =>
      amap Opened (buyStock symbol shares price clk)
  | SellStock symbol currentPrice =>
      amap Closed (sellStock symbol currentPrice clk)
  | BuyOption symbol type strike expiration premium contracts =>
      amap Opened (buyOption symbol type strike expiration premium contracts clk)
  | CloseOption positionId exitPremium =>
      amap Closed (closeOption positionId exitPremium clk)
  | ResetPortfolio =>
      amap WasReset (resetPortfolio clk)
  end.

(** The store after a sequence of calls made one after the other, each
    awaited before the next starts. *)
Definition run_trace (calls : list (Clock * Op)) (s : Store) : Store :=
  fold_left (λ s call, snd (run (perform call.2 call.1) s)) calls s.

(** A store as a first run or a reset leaves it. *)
Definition fresh_store (s : Store) : Prop :=
  s = NoFile ∨ ∃ clk, s = File (Serialized (initializePortfolio clk)).

(** Calls whose quantities and closing prices are not negative. *)
Definition nonneg_call (call : Clock * Op) : Prop :=
  match call.2 with
  | BuyStock _ shares _ => (0 <= shares)%Q
  | SellStock _ currentPrice => (0 <= currentPrice)%Q
  | BuyOption _ _ _ _ _ contracts => (0 <= contracts)%Q
  | CloseOption _ exitPremium => (0 <= exitPremium)%Q
  | ResetPortfolio => True
  end.

(** The [Date.now()] readings of the calls that open a position. *)
Fixpoint open_stamps (calls : list (Clock * Op)) : list Z :=
  match calls with
  | [] => []
  | (clk, BuyStock _ _ _) :: calls' => Date_now clk :: open_stamps calls'
  | (clk, BuyOption _ _ _ _ _ _) :: calls' => Date_now clk :: open_stamps calls'
  | _ :: calls' => open_stamps calls'
  end.

Definition is_open (op : Op) : bool :=
  match op with
  | BuyStock _ _ _ | BuyOption _ _ _ _ _ _ => true
  | _ => false
  end.

(** What [loadPortfolio] returns and leaves in the store: the persisted
    portfolio when there is one, a new one (written out) in every other
    case. *)
Definition loaded (clk : Clock) (s : Store) : Portfolio :=
  match persisted s with
  | Some p => p
  | None => initializePortfolio clk
  end.

Definition after_load (clk : Clock) (s : Store) : Store :=
  match persisted s with
  | Some _ => s
  | None => File (Serialized (initializePortfolio clk))
  end.

(** ** Summary of a call's effect on the ledger *)

(** How the portfolio persisted after [perform op clk] relates to the
    portfolio [p] the call loaded: unchanged when the call threw, otherwise
    the update of the matching function. *)
Definition effect (op : Op) (clk : Clock) (p p' : Portfolio) : Prop :=
  match op with
  | BuyStock symbol shares price =>
      p' = p ∨
      ((shares * price <= balance p)%Q ∧
       p' = {| balance := (balance p - shares * price)%Q;
               openPositions := openPositions p ++
                 [Stock (toString (Date_now clk)) symbol shares price
                        (toISOString clk) (shares * price)%Q];
               closedTrades := closedTrades p;
               totalPL := totalPL p;
               createdAt := createdAt p |})
  | BuyOption symbol type strike expiration premium contracts =>
      p' = p ∨
      ((premium * 100 * contracts <= balance p)%Q ∧
       p' = {| balance := (balance p - premium * 100 * contracts)%Q;
               openPositions := openPositions p ++
                 [Option (toString (Date_now clk)) type symbol strike expiration
                         contracts premium (toISOString clk)
                         (premium * 100 * contracts)%Q];
               closedTrades := closedTrades p;
               totalPL := totalPL p;
               createdAt := createdAt p |})
  | SellStock symbol currentPrice =>
      p' = p ∨
      ∃ before pos after,
        openPositions p = before ++ pos :: after ∧
        balance p' = (balance p + pos_quantity pos * currentPrice)%Q ∧
        openPositions p' = before ++ after
  | CloseOption positionId exitPremium =>
      p' = p ∨
      ∃ before pos after,
        openPositions p = before ++ pos :: after ∧
        balance p' = (balance p + exitPremium * 100 * pos_quantity pos)%Q ∧
        openPositions p' = before ++ after
  | ResetPortfolio => p' = initializePortfolio clk
  end.

(** Cash is not negative and no position has a negative size. *)
Definition solvent (p : Portfolio) : Prop :=
  (0 <= balance p)%Q ∧
  Forall (λ pos, (0 <= pos_quantity pos)%Q) (openPositions p).

(** The identifiers of the open positions are pairwise distinct, and none
    of them is the numeral of a clock reading in [stamps]. *)
Definition ids_apart (stamps : list Z) (p : Portfolio) : Prop :=
  NoDup (pos_id <$> openPositions p) ∧
  Forall (λ pos, ∀ t, t ∈ stamps → pos_id pos ≠ toString t) (openPositions p).

(** ** The exact change of a call *)

(** The position object a purchase builds. *)
Definition new_position (op : Op) (clk : Clock) : option Position :=
  match op with
  | BuyStock symbol shares price =>
      Some (Stock (toString (Date_now clk)) symbol shares price
                  (toISOString clk) (shares * price)%Q)
  | BuyOption symbol type strike expiration premium contracts =>
      Some (Option (toString (Date_now clk)) type symbol strike expiration
                   contracts premium (toISOString clk)
                   (premium * 100 * contracts)%Q)
  | _ => None
  end.

(** The test a closing call passes to [findIndex]. *)
Definition selects (op : Op) (pos : Position) : bool :=
  match op with
  | SellStock symbol _ => sells symbol pos
  | CloseOption positionId _ => has_id positionId pos
  | _ => false
  end.

(** The exit price (or premium) and the proceeds a closing call computes
    for the position it found; [closeOption] throws for a stock. *)
Definition closing (op : Op) (pos : Position) : option (Q * Q) :=
  match op with
  | SellStock _ currentPrice =>
      Some (currentPrice, (pos_quantity pos * currentPrice)%Q)
  | CloseOption _ exitPremium =>
      if is_stock pos then None
      else Some (exitPremium, (exitPremium * 100 * pos_quantity pos)%Q)
  | _ => None
  end.

(** The closed-trade record both closing calls build. *)
Definition closed_trade (pos : Position) (exit gain : Q) (clk : Clock)
  : ClosedTrade :=
  {| ct_position := pos;
     ct_exit := exit;
     exitDate := toISOString clk;
     proceeds := gain;
     profitLoss := (gain - pos_costBasis pos)%Q;
     percentReturn := js_percent (gain - pos_costBasis pos) (pos_costBasis pos) |}.

(** What [perform op clk] returns and persists, given the portfolio [p] it
    loaded: it throws and persists [p]; it opens a position; it closes the
    first position its test selects; or it resets. *)
Inductive Transition (clk : Clock) (p : Portfolio)
  : Op → Result Response → Portfolio → Prop :=
| tr_thrown op e :
    Transition clk p op (Err e) p
| tr_opened op pos :
    new_position op clk = Some pos →
    (pos_costBasis pos <= balance p)%Q →
    Transition clk p op
      (Ok (Opened {| position := pos;
                     open_newBalance := (balance p - pos_costBasis pos)%Q |}))
      {| balance := (balance p - pos_costBasis pos)%Q;
         openPositions := openPositions p ++ [pos];
         closedTrades := closedTrades p;
         totalPL := totalPL p;
         createdAt := createdAt p |}
| tr_closed op before pos after exit gain :
    openPositions p = before ++ pos :: after →
    selects op pos = true →
    Forall (λ q, selects op q = false) before →
    closing op pos = Some (exit, gain) →
    Transition clk p op
      (Ok (Closed {| trade := closed_trade pos exit gain clk;
                     close_newBalance := (balance p + gain)%Q |}))
      {| balance := (balance p + gain)%Q;
         openPositions := before ++ after;
         closedTrades := closedTrades p ++ [closed_trade pos exit gain clk];
         totalPL := (totalPL p + (gain - pos_costBasis pos))%Q;
         createdAt := createdAt p |}
| tr_reset :
    Transition clk p ResetPortfolio
      (Ok (WasReset (initializePortfolio clk))) (initializePortfolio clk).

(** The cost basis an open position should carry. *)
Definition cost_of (pos : Position) : Q :=
  match pos with
  | Stock _ _ shares entryPrice _ _ => (shares * entryPrice)%Q
  | Option _ _ _ _ _ contracts entryPremium _ _ =>
      (entryPremium * 100 * contracts)%Q
  end.

(** The proceeds a closed trade should carry. *)
Definition proceeds_of (t : ClosedTrade) : Q :=
  match ct_position t with
  | Stock _ _ shares _ _ _ => (shares * ct_exit t)%Q
  | Option _ _ _ _ _ contracts _ _ _ => (ct_exit t * 100 * contracts)%Q
  end.

Definition is_reset (op : Op) : bool :=
  match op with ResetPortfolio => true | _ => false end.

(** ** The portfolio routes of [server.js] *)

(** [try { const x = await m; ... } catch (error) { ... }] around an
    awaited call: the continuation receives the value or the error. *)
Fixpoint settle {A B} (m : Async A) (f : Result A → Async B) : Async B :=
  match m with
  | Return r => f r
  | ReadFile k => ReadFile (λ r, settle (k r) f)
  | WriteFile d k => WriteFile d (λ u, settle (k u) f)
  end.

(** What a route handler's [catch] can receive: an error thrown by the
    portfolio call, or one of the handler's own. *)
Inductive RouteError : Type :=
| Thrown (e : Error)
| InvalidAction                 (* 'Invalid action' *)
| InvalidCloseParameters.       (* 'Invalid close parameters' *)

(** [res.json(result)] (status 200) or
    [res.status(400).json({ success: false, error: error.message })]. *)
Record HttpResponse : Type := mkHttpResponse {
  status : nat;
  json : RouteError + Response
}.

Definition respond (call : Async Response) : Async HttpResponse :=
  settle call (λ r,
    match r with
    | Ok result => resolve {| status := 200; json := inr result |}
    | Err error => resolve {| status := 400; json := inl (Thrown error) |}
    end).

Definition reject (error : RouteError) : Async HttpResponse :=
  resolve {| status := 400; json := inl error |}.

(** [req.body.optionDetails] *)
Record OptionDetails : Type := mkOptionDetails {
  od_type : string;
  od_strike : Q;
  od_expiration : string;
  od_premium : Q
}.

(** [req.body] of POST /api/portfolio/trade, for requests that carry
    [action] and [symbol] as strings and [quantity] and [price] as numbers;
    [optionDetails] may be absent. *)
Record TradeBody : Type := mkTradeBody {
  action : string;
  tb_symbol : string;
  tb_quantity : Q;
  tb_price : Q;
  optionDetails : option OptionDetails
}.

(** POST /api/portfolio/trade.  Destructuring an absent [optionDetails]
    throws a [TypeError] inside the [try]. *)
Definition trade_route (body : TradeBody) (clk : Clock) : Async HttpResponse :=
  if String.eqb (action body) "buy_stock" then
    respond (perform (BuyStock (tb_symbol body) (tb_quantity body)
                               (tb_price body)) clk)
  else if String.eqb (action body) "buy_option" then
    match optionDetails body with
    | None => reject (Thrown TypeError)
    | Some details =>
        respond (perform (BuyOption (tb_symbol body) (od_type details)
                                    (od_strike details) (od_expiration details)
                                    (od_premium details) (tb_quantity body)) clk)
    end
  else reject InvalidAction.

(** [req.body] of POST /api/portfolio/close; each field may be absent,
    strings are strings and numbers are numbers. *)
Record CloseBody : Type := mkCloseBody {
  cb_symbol : option string;
  cb_positionId : option string;
  cb_currentPrice : option Q;
  cb_exitPremium : option Q
}.

(** A string operand of [&&] counts as true when it is present and not
    empty; a number, when it is present and not zero. *)
Definition truthy_string (x : option string) : option string :=
  match x with
  | Some "" | None => None
  | Some str => Some str
  end.

Definition truthy_number (x : option Q) : option Q :=
  match x with
  | Some q => if Qeq_bool q 0 then None else Some q
  | None => None
  end.

(** POST /api/portfolio/close:
    [if (positionId && exitPremium !== undefined) closeOption
     else if (symbol && currentPrice) sellStock
     else throw new Error('Invalid close parameters')]. *)
Definition close_route (body : CloseBody) (clk : Clock) : Async HttpResponse :=
  match truthy_string (cb_positionId body), cb_exitPremium body with
  | Some positionId, Some exitPremium =>
      respond (perform (CloseOption positionId exitPremium) clk)
  | _, _ =>
      match truthy_string (cb_symbol body), truthy_number (cb_currentPrice body) with
      | Some symbol, Some currentPrice =>
          respond (perform (SellStock symbol currentPrice) clk)
      | _, _ => reject InvalidCloseParameters
      end
  end.

(** A route answers a request: it responds (it never rejects), with
    status 200, a result and a portfolio in the file, or with status 400,
    an error and, when the file held a portfolio, the file as it was. *)
Definition answers (route : Async HttpResponse) (s : Store) : Prop :=
  ∃ resp s',
    run route s = (Ok resp, s') ∧
    ((status resp = 200 ∧ (∃ result, json resp = inr result) ∧
      is_Some (persisted s')) ∨
     (status resp = 400 ∧ (∃ error, json resp = inl error) ∧
      ∀ p, persisted s = Some p → s' = s)).

(** A route passes a portfolio call on: it makes the call and answers 200
    with the call's result when the call returns, 400 with the call's
    error when it throws; the file is left as the call leaves it. *)
Definition passes_on (route : Async HttpResponse) (call : Async Response)
    (s : Store) : Prop :=
  run route s =
  (Ok match (run call s).1 with
      | Ok result => {| status := 200; json := inr result |}
      | Err error => {| status := 400; json := inl (Thrown error) |}
      end,
   (run call s).2).

(** ** Screening detection in [server.js] *)

(** [c.toLowerCase()] on the letters A to Z; other characters of the
    one-byte range are left as they are (none of them lower-cases to an
    unaccented letter). *)
Definition toLowerCase_char (c : ascii) : ascii :=
  let n := nat_of_ascii c in
  if (65 <=? n)%nat && (n <=? 90)%nat then ascii_of_nat (n + 32) else c.

Fixpoint toLowerCase (s : string) : string :=
  match s with
  | EmptyString => EmptyString
  | String c s' => String (toLowerCase_char c) (toLowerCase s')
  end.

(** [s.includes(t)]: [t] occurs in [s] at some position. *)
Fixpoint includes (s t : string) : bool :=
  String.prefix t s ||
  match s with
  | EmptyString => false
  | String _ s' => includes s' t
  end.

Definition triggers : list string :=
  ["top movers"; "biggest gainers"; "biggest losers"; "market movers";
   "stocks moving"; "highest volume"; "most active"; "primed for";
   "identify stocks"; "find stocks"; "which stocks"; "what stocks"].

Definition needsMarketData (query : string) : bool :=
  let lowerQuery := toLowerCase query in
  existsb (λ trigger, includes lowerQuery trigger) triggers.

(** ** Two calls in flight *)






(** *** The file while two calls are in flight *)

(** [fs.writeFile] is not one event.  It opens the file, which empties it,
    and later puts its text, from the start of the file and through its own
    descriptor.  Between the two the file is empty; and a text put onto a
    longer text that another write has left in the meantime covers only
    its beginning. *)
Inductive Disk : Type :=
| Absent                        (* no file *)
| Emptied                       (* opened for writing, nothing put since *)
| Text (c : FileContent).

Definition disk_of (s : Store) : Disk :=
  match s with
  | NoFile => Absent
  | File c => Text c
  end.

(** The file as a reader finds it; the empty text is not JSON. *)
Definition store_of (d : Disk) : Store :=
  match d with
  | Absent => NoFile
  | Emptied => File Garbage
  | Text c => File c
  end.

(** Putting a text.  Onto an empty file it leaves the text.  Onto a text
    left since the opening it leaves the new text when that is at least as
    long ([covers]), and otherwise the new text followed by the rest of
    the old, which does not parse. *)
Definition put (data : FileContent) (covers : bool) (d : Disk) : Disk :=
  match d with
  | Text _ => if covers then Text data else Text Garbage
  | _ => Text data
  end.

(** A call in flight: between file events, or between the opening and the
    putting of a write. *)
Inductive Task (A : Type) : Type :=
| Running (m : Async A)
| Writing (data : FileContent) (k : unit → Async A).
Arguments Running {A} m.
Arguments Writing {A} data k.

(** One file event of a call: a read, the opening of a write, or the
    putting of its text, after which the call continues to its next
    [await]. *)
Definition event {A} (t : Task A) (covers : bool) (d : Disk)
  : option (Task A * Disk) :=
  match t with
  | Running (Return _) => None
  | Running (ReadFile k) => Some (Running (k (fs_readFile (store_of d))), d)
  | Running (WriteFile data k) => Some (Writing data k, Emptied)
  | Writing data k => Some (Running (k tt), put data covers d)
  end.

(** The executions of two calls in flight.  A schedule names, event by
    event, the call whose event takes place ([true]: the first) and, for
    the putting of a text, whether it covers what is in the file. *)
Fixpoint concurrent {A} (sched : list (bool * bool)) (a b : Task A) (d : Disk)
  : option (Task A * Task A * Disk) :=
  match sched with
  | [] => Some (a, b, d)
  | (true, covers) :: sched' =>
      match event a covers d with
      | Some (a', d') => concurrent sched' a' b d'
      | None => None
      end
  | (false, covers) :: sched' =>
      match event b covers d with
      | Some (b', d') => concurrent sched' a b' d'
      | None => None
      end
  end.




(** ** Sample inputs *)

Definition clk0 : Clock :=
  {| Date_now := 1700000000000; toISOString := "2023-11-14T22:13:20.000Z" |}.

Definition clk1 : Clock :=
  {| Date_now := 1700000000001; toISOString := "2023-11-14T22:13:20.001Z" |}.

Definition fresh0 : Store := File (Serialized (initializePortfolio clk0)).

(** Two lots of one symbol: the earlier lot is sold, the later one stays,
    and the option in front of them is passed over. *)
Definition two_lots : Portfolio :=
  {| balance := 500000;
     openPositions :=
       [Option "1700000000100" "call" "AAPL" 250 "2026-01-01" 10 5
               "2023-11-14T22:13:20.100Z" 5000;
        Stock "1700000000200" "AAPL" 100 150 "2023-11-14T22:13:20.200Z" 15000;
        Stock "1700000000300" "AAPL" 50 155 "2023-11-14T22:13:20.300Z" 7750];
     closedTrades := [];
     totalPL := 0;
     createdAt := "2023-11-14T22:13:20.000Z" |}.

(** * Properties *)

(** ** Programs run alone *)

Lemma run_abind {A B} (m : Async A) (f : A → Async B) (s : Store) :
  run (abind m f) s =
  match run m s with
  | (Ok a, s') => run (f a) s'
  | (Err e, s') => (Err e, s')
  end.
Proof.
  revert s. induction m as [[a | e] | k IH | d k IH]; intros s; simpl; auto.
Qed.

Lemma run_loadPortfolio clk s :
  run (loadPortfolio clk) s = (Ok (loaded clk s), after_load clk s).
Proof. destruct s as [ | [p | ]]; reflexivity. Qed.

Lemma persisted_after_load clk s :
  persisted (after_load clk s) = Some (loaded clk s).
Proof. destruct s as [ | [p | ]]; reflexivity. Qed.

Lemma after_load_persisted clk s p : persisted s = Some p → after_load clk s = s.
Proof. unfold after_load. by intros ->. Qed.

Lemma persisted_File s p : persisted s = Some p → s = File (Serialized p).
Proof. destruct s as [ | [q | ]]; simpl; congruence. Qed.

(** ** Comparison and search *)

Lemma Qgtb_true x y : Qgtb x y = true ↔ (y < x)%Q.
Proof.
  unfold Qgtb. rewrite negb_true_iff, <- not_true_iff_false, Qle_bool_iff.
  split; [apply Qnot_le_lt | apply Qlt_not_le].
Qed.

Lemma js_percent_nonzero (x y : Q) :
  ¬ (y == 0)%Q → js_percent x y = Some ((x / y) * 100)%Q.
Proof.
  intros Hy. unfold js_percent. destruct (Qeq_bool y 0) eqn:Hzero; [ | done].
  by apply Qeq_bool_iff in Hzero.
Qed.

Lemma js_percent_zero (x y : Q) : (y == 0)%Q → js_percent x y = None.
Proof. intros Hy. unfold js_percent. apply Qeq_bool_iff in Hy. by rewrite Hy. Qed.

Lemma Qgtb_false x y : Qgtb x y = false ↔ (x <= y)%Q.
Proof. unfold Qgtb. rewrite negb_false_iff. apply Qle_bool_iff. Qed.

(** [findIndex] returns the least index whose element passes the test. *)
Lemma findIndex_Some {A} (f : A → bool) (l : list A) (i : nat) :
  findIndex f l = Some i ↔
  ∃ before x after,
    l = before ++ x :: after ∧ length before = i ∧ f x = true ∧
    Forall (λ y, f y = false) before.
Proof.
  revert i. induction l as [ | y l IH]; intros i; simpl.
  - split; [discriminate | ].
    intros (before & x & after & Hl & _). by destruct before.
  - destruct (f y) eqn:Hy.
    + split.
      * intros [= <-]. by exists [], y, l.
      * intros (before & x & after & Hl & Hlen & Hx & Hbefore).
        destruct before as [ | z before]; simpl in *; [congruence | ].
        injection Hl as -> ->. apply Forall_cons in Hbefore as [Hz _]. congruence.
    + split.
      * destruct (findIndex f l) as [j | ]; simpl; [ | discriminate].
        intros [= <-].
        destruct (proj1 (IH j) eq_refl) as (before & x & after & -> & <- & Hx & Hbefore).
        exists (y :: before), x, after. repeat split; auto.
      * intros (before & x & after & Hl & Hlen & Hx & Hbefore).
        destruct before as [ | z before]; simpl in *.
        { injection Hl as -> ->. congruence. }
        injection Hl as -> ->. apply Forall_cons in Hbefore as [_ Hbefore].
        destruct i as [ | i]; [discriminate | ]. injection Hlen as Hlen.
        assert (findIndex f (before ++ x :: after) = Some i) as ->; [ | done].
        apply IH. by exists before, x, after.
Qed.


Lemma findIndex_app_first {A} (f : A → bool) (before : list A) x after :
  f x = true → Forall (λ y, f y = false) before →
  findIndex f (before ++ x :: after) = Some (length before).
Proof. intros Hx Hb. apply findIndex_Some. by exists before, x, after. Qed.

Lemma lookup_middle_len {A} (before : list A) x after :
  (before ++ x :: after) !! length before = Some x.
Proof. by rewrite list_lookup_middle. Qed.

Lemma delete_middle_len {A} (before : list A) x after :
  delete (length before) (before ++ x :: after) = before ++ after.
Proof. induction before; simpl; [done | by f_equal]. Qed.

(** ** Worked scenarios *)

(** Buy 100 AAPL at 150 on a first run, then sell at 160. *)
Example scenario_stock_round_trip :
  ∃ bought sold t,
    run (buyStock "AAPL" 100 150 clk0) NoFile
      = (Ok {| position := Stock "1700000000000" "AAPL" 100 150
                                 "2023-11-14T22:13:20.000Z" (100 * 150)%Q;
               open_newBalance := balance bought |},
         File (Serialized bought)) ∧
    (balance bought == 985000)%Q ∧
    run (sellStock "AAPL" 160 clk1) (File (Serialized bought))
      = (Ok {| trade := t; close_newBalance := balance sold |},
         File (Serialized sold)) ∧
    (proceeds t == 16000)%Q ∧ (profitLoss t == 1000)%Q ∧
    (∃ percent, percentReturn t = Some percent ∧ (percent == 20 # 3)%Q) ∧
    (balance sold == 1001000)%Q ∧ (totalPL sold == 1000)%Q ∧
    openPositions sold = [].
Proof.
  eexists _, _, _. repeat split; try reflexivity. by eexists.
Qed.

(** Buy 10 TSLA calls at a premium of 5, then close at 8. *)
Example scenario_option_round_trip :
  ∃ bought sold t,
    (run (buyOption "TSLA" "call" 250 "2026-01-01" 5 10 clk0) fresh0).2
      = File (Serialized bought) ∧
    (balance bought == 1000000 - 5000)%Q ∧
    run (closeOption "1700000000000" 8 clk1) (File (Serialized bought))
      = (Ok {| trade := t; close_newBalance := balance sold |},
         File (Serialized sold)) ∧
    (proceeds t == 8000)%Q ∧ (profitLoss t == 3000)%Q ∧
    (∃ percent, percentReturn t = Some percent ∧ (percent == 60)%Q).
Proof.
  eexists _, _, _. repeat split; try reflexivity. by eexists.
Qed.

(** A purchase of 2,000,000 against 1,000,000 is refused, and selling a
    symbol that is not held is refused. *)
Example scenario_refusals :
  run (buyStock "NVDA" 1000 2000 clk1) fresh0
    = (Err (InsufficientFunds 1000000 (1000 * 2000)), fresh0) ∧
  run (sellStock "ZZZZ" 100 clk1) fresh0
    = (Err (NoOpenPosition "ZZZZ"), fresh0).
Proof. split; reflexivity. Qed.

(** ** The calls, run alone *)

Lemma run_buyStock symbol shares price clk s :
  run (buyStock symbol shares price clk) s =
  let p := loaded clk s in
  let cost := (shares * price)%Q in
  if Qgtb cost (balance p) then
    (Err (InsufficientFunds (balance p) cost), after_load clk s)
  else
    let pos := Stock (toString (Date_now clk)) symbol shares price
                     (toISOString clk) cost in
    (Ok {| position := pos; open_newBalance := (balance p - cost)%Q |},
     File (Serialized
       {| balance := (balance p - cost)%Q;
          openPositions := openPositions p ++ [pos];
          closedTrades := closedTrades p;
          totalPL := totalPL p;
          createdAt := createdAt p |})).
Proof.
  unfold buyStock. rewrite run_abind, run_loadPortfolio. simpl.
  by destruct (Qgtb _ _).
Qed.

Lemma run_buyOption symbol type strike expiration premium contracts clk s :
  run (buyOption symbol type strike expiration premium contracts clk) s =
  let p := loaded clk s in
  let cost := (premium * 100 * contracts)%Q in
  if Qgtb cost (balance p) then
    (Err (InsufficientFunds (balance p) cost), after_load clk s)
  else
    let pos := Option (toString (Date_now clk)) type symbol strike expiration
                      contracts premium (toISOString clk) cost in
    (Ok {| position := pos; open_newBalance := (balance p - cost)%Q |},
     File (Serialized
       {| balance := (balance p - cost)%Q;
          openPositions := openPositions p ++ [pos];
          closedTrades := closedTrades p;
          totalPL := totalPL p;
          createdAt := createdAt p |})).
Proof.
  unfold buyOption. rewrite run_abind, run_loadPortfolio. simpl.
  by destruct (Qgtb _ _).
Qed.

Lemma run_sellStock_none symbol currentPrice clk s :
  findIndex (sells symbol) (openPositions (loaded clk s)) = None →
  run (sellStock symbol currentPrice clk) s =
  (Err (NoOpenPosition symbol), after_load clk s).
Proof.
  intros Hnone. unfold sellStock. rewrite run_abind, run_loadPortfolio.
  simpl. by rewrite Hnone.
Qed.

Lemma run_sellStock_first symbol currentPrice clk s before pos after :
  openPositions (loaded clk s) = before ++ pos :: after →
  sells symbol pos = true →
  Forall (λ q, sells symbol q = false) before →
  run (sellStock symbol currentPrice clk) s =
  let p := loaded clk s in
  let proceeds := (pos_quantity pos * currentPrice)%Q in
  let profitLoss := (proceeds - pos_costBasis pos)%Q in
  let closedTrade :=
    {| ct_position := pos; ct_exit := currentPrice;
       exitDate := toISOString clk; proceeds := proceeds;
       profitLoss := profitLoss;
       percentReturn := js_percent profitLoss (pos_costBasis pos) |} in
  (Ok {| trade := closedTrade;
         close_newBalance := (balance p + proceeds)%Q |},
   File (Serialized
     {| balance := (balance p + proceeds)%Q;
        openPositions := before ++ after;
        closedTrades := closedTrades p ++ [closedTrade];
        totalPL := (totalPL p + profitLoss)%Q;
        createdAt := createdAt p |})).
Proof.
  intros Hl Hpos Hbefore. unfold sellStock.
  rewrite run_abind, run_loadPortfolio. simpl.
  rewrite Hl, (findIndex_app_first _ _ _ _ Hpos Hbefore).
  by rewrite lookup_middle_len, delete_middle_len.
Qed.

Lemma run_closeOption_none positionId exitPremium clk s :
  findIndex (has_id positionId) (openPositions (loaded clk s)) = None →
  run (closeOption positionId exitPremium clk) s =
  (Err PositionNotFound, after_load clk s).
Proof.
  intros Hnone. unfold closeOption. rewrite run_abind, run_loadPortfolio.
  simpl. by rewrite Hnone.
Qed.

Lemma run_closeOption_first positionId exitPremium clk s before pos after :
  openPositions (loaded clk s) = before ++ pos :: after →
  has_id positionId pos = true →
  Forall (λ q, has_id positionId q = false) before →
  run (closeOption positionId exitPremium clk) s =
  let p := loaded clk s in
  if is_stock pos then (Err NotAnOption, after_load clk s)
  else
    let proceeds := (exitPremium * 100 * pos_quantity pos)%Q in
    let profitLoss := (proceeds - pos_costBasis pos)%Q in
    let closedTrade :=
      {| ct_position := pos; ct_exit := exitPremium;
         exitDate := toISOString clk; proceeds := proceeds;
         profitLoss := profitLoss;
         percentReturn := js_percent profitLoss (pos_costBasis pos) |} in
    (Ok {| trade := closedTrade;
           close_newBalance := (balance p + proceeds)%Q |},
     File (Serialized
       {| balance := (balance p + proceeds)%Q;
          openPositions := before ++ after;
          closedTrades := closedTrades p ++ [closedTrade];
          totalPL := (totalPL p + profitLoss)%Q;
          createdAt := createdAt p |})).
Proof.
  intros Hl Hpos Hbefore. unfold closeOption.
  rewrite run_abind, run_loadPortfolio. simpl.
  rewrite Hl, (findIndex_app_first _ _ _ _ Hpos Hbefore).
  rewrite lookup_middle_len, delete_middle_len. simpl.
  by destruct (is_stock pos).
Qed.

Lemma run_amap {A B} (f : A → B) (m : Async A) s :
  run (amap f m) s =
  match run m s with
  | (Ok a, s') => (Ok (f a), s')
  | (Err e, s') => (Err e, s')
  end.
Proof. unfold amap. rewrite run_abind. by destruct (run m s) as [[a | e] s']. Qed.

Lemma loaded_of_run clk s p :
  (run (loadPortfolio clk) s).1 = Ok p → loaded clk s = p.
Proof. rewrite run_loadPortfolio. simpl. congruence. Qed.

(** A call that throws leaves the store as its [loadPortfolio] left it. *)
Lemma run_perform_err op clk s e :
  (run (perform op clk) s).1 = Err e →
  (run (perform op clk) s).2 = after_load clk s.
Proof.
  destruct op as [symbol shares price | symbol currentPrice
                 | symbol type strike expiration premium contracts
                 | positionId exitPremium | ]; cbv [perform]; rewrite run_amap.
  - rewrite run_buyStock. simpl. by destruct (Qgtb _ _).
  - destruct (findIndex (sells symbol) (openPositions (loaded clk s)))
      as [i | ] eqn:Hfind.
    + apply findIndex_Some in Hfind as (before & pos & after & Hl & _ & Hpos & Hb).
      by rewrite (run_sellStock_first _ _ _ _ _ _ _ Hl Hpos Hb).
    + by rewrite (run_sellStock_none _ _ _ _ Hfind).
  - rewrite run_buyOption. simpl. by destruct (Qgtb _ _).
  - destruct (findIndex (has_id positionId) (openPositions (loaded clk s)))
      as [i | ] eqn:Hfind.
    + apply findIndex_Some in Hfind as (before & pos & after & Hl & _ & Hpos & Hb).
      rewrite (run_closeOption_first _ _ _ _ _ _ _ Hl Hpos Hb). simpl.
      by destruct (is_stock pos).
    + by rewrite (run_closeOption_none _ _ _ _ Hfind).
  - discriminate.
Qed.

(** ** Opening a position *)

(** C3, as the code has it: [buyStock] and [buyOption] do not look at the
    sign of their numeric arguments.  A call throws exactly when its cost
    (shares * price, resp. premium * 100 * contracts) exceeds the balance of
    the loaded portfolio, and what it throws is the insufficient-funds
    error carrying that balance and that cost.  A call that throws writes
    nothing of its own: afterwards the file holds the portfolio the call
    loaded.  That is the file as it was when it held a portfolio; when the
    file was missing or did not parse, loading has created it with a new
    portfolio before the funds were checked. *)
Theorem open_throws_iff_cost_exceeds_balance
    (symbol type expiration : string) (shares price strike premium contracts : Q)
    (clk : Clock) (s : Store) (p : Portfolio) (e : Error) :
  (run (loadPortfolio clk) s).1 = Ok p →
  ((run (buyStock symbol shares price clk) s).1 = Err e ↔
     (balance p < shares * price)%Q ∧
     e = InsufficientFunds (balance p) (shares * price)) ∧
  ((run (buyOption symbol type strike expiration premium contracts clk) s).1 = Err e ↔
     (balance p < premium * 100 * contracts)%Q ∧
     e = InsufficientFunds (balance p) (premium * 100 * contracts)) ∧
  ((run (buyStock symbol shares price clk) s).1 = Err e →
     (run (buyStock symbol shares price clk) s).2 = File (Serialized p) ∧
     (is_Some (persisted s) →
      (run (buyStock symbol shares price clk) s).2 = s) ∧
     (persisted s = None → p = initializePortfolio clk)) ∧
  ((run (buyOption symbol type strike expiration premium contracts clk) s).1 = Err e →
     (run (buyOption symbol type strike expiration premium contracts clk) s).2
       = File (Serialized p) ∧
     (is_Some (persisted s) →
      (run (buyOption symbol type strike expiration premium contracts clk) s).2 = s) ∧
     (persisted s = None → p = initializePortfolio clk)).
Proof.
  intros <-%loaded_of_run.
  assert (after_load clk s = File (Serialized (loaded clk s)) ∧
          (is_Some (persisted s) → after_load clk s = s) ∧
          (persisted s = None → loaded clk s = initializePortfolio clk))
    as Hstore.
  { unfold after_load, loaded. destruct (persisted s) as [q | ] eqn:Hq.
    - split; [by apply persisted_File | split; [done | discriminate]].
    - split; [done | split; [by intros [? ?] | done]]. }
  rewrite run_buyStock, run_buyOption. simpl. split; [ | split; [ | split]].
  - destruct (Qgtb (shares * price) _) eqn:Hgt; simpl.
    + apply Qgtb_true in Hgt. split; [intros [= <-]; done | intros [_ ->]; done].
    + apply Qgtb_false in Hgt. split; [discriminate | ].
      intros [Hlt _]. by apply Qlt_not_le in Hlt.
  - destruct (Qgtb (premium * 100 * contracts) _) eqn:Hgt; simpl.
    + apply Qgtb_true in Hgt. split; [intros [= <-]; done | intros [_ ->]; done].
    + apply Qgtb_false in Hgt. split; [discriminate | ].
      intros [Hlt _]. by apply Qlt_not_le in Hlt.
  - destruct (Qgtb (shares * price) _); simpl; [ | discriminate].
    intros _. exact Hstore.
  - destruct (Qgtb (premium * 100 * contracts) _); simpl; [ | discriminate].
    intros _. exact Hstore.
Qed.

Lemma open_throws_iff_cost_exceeds_balance_witness :
  ((run (buyStock "NVDA" 1000 2000 clk0) fresh0).1 =
     Err (InsufficientFunds 1000000 (1000 * 2000)) ∧
   (run (buyStock "NVDA" 1000 2000 clk0) fresh0).2 = fresh0) ∧
  ((run (buyOption "TSLA" "call" 250 "2026-01-01" 5000 10 clk1) NoFile).1 =
     Err (InsufficientFunds 1000000 (5000 * 100 * 10)) ∧
   (run (buyOption "TSLA" "call" 250 "2026-01-01" 5000 10 clk1) NoFile).2 =
     File (Serialized (initializePortfolio clk1))).
Proof.
  pose proof (open_throws_iff_cost_exceeds_balance
    "NVDA" "call" "2026-01-01" 1000 2000 250 1 1 clk0 fresh0
    (initializePortfolio clk0) (InsufficientFunds 1000000 (1000 * 2000))
    eq_refl) as (Hstock & _ & Hkept & _).
  pose proof (open_throws_iff_cost_exceeds_balance
    "TSLA" "call" "2026-01-01" 1 1 250 5000 10 clk1 NoFile
    (initializePortfolio clk1) (InsufficientFunds 1000000 (5000 * 100 * 10))
    eq_refl) as (_ & Hoption & _ & Hmade).
  split; split.
  - apply Hstock. split; reflexivity.
  - refine (proj1 (proj2 (Hkept _)) _); [reflexivity | by eexists].
  - apply Hoption. split; reflexivity.
  - exact (proj1 (Hmade eq_refl)).
Defined.

(** C3, as stated, fails: a purchase of zero shares, of a negative number
    of shares, and of a negative number of contracts are all accepted; the
    negative ones raise the cash balance. *)
Lemma open_accepts_nonpositive_arguments :
  ((0 <= 0)%Q ∧
   is_ok (run (buyStock "AAPL" 0 150 clk0) fresh0).1 = true) ∧
  ((-10 <= 0)%Q ∧
   is_ok (run (buyStock "AAPL" (-10) 150 clk0) fresh0).1 = true ∧
   balance <$> persisted (run (buyStock "AAPL" (-10) 150 clk0) fresh0).2
     = Some 1001500%Q) ∧
  ((-2 <= 0)%Q ∧
   is_ok (run (buyOption "TSLA" "call" 250 "2026-01-01" 5 (-2) clk0) fresh0).1 = true ∧
   balance <$> persisted
       (run (buyOption "TSLA" "call" 250 "2026-01-01" 5 (-2) clk0) fresh0).2
     = Some 1001000%Q).
Proof. repeat split; try reflexivity; by vm_compute. Qed.

(** C10: a successful [buyStock] or [buyOption] persists the loaded
    portfolio with the cost taken off the balance and the returned position
    appended after the existing open positions; [closedTrades], [totalPL],
    [createdAt] and the existing positions are as they were. *)
Theorem open_success_frame
    (symbol type expiration : string) (shares price strike premium contracts : Q)
    (clk : Clock) (s : Store) (p : Portfolio) :
  (run (loadPortfolio clk) s).1 = Ok p →
  (∀ r, (run (buyStock symbol shares price clk) s).1 = Ok r →
     persisted (run (buyStock symbol shares price clk) s).2 =
     Some {| balance := (balance p - shares * price)%Q;
             openPositions := openPositions p ++ [position r];
             closedTrades := closedTrades p;
             totalPL := totalPL p;
             createdAt := createdAt p |}) ∧
  (∀ r, (run (buyOption symbol type strike expiration premium contracts clk) s).1 = Ok r →
     persisted (run (buyOption symbol type strike expiration premium contracts clk) s).2 =
     Some {| balance := (balance p - premium * 100 * contracts)%Q;
             openPositions := openPositions p ++ [position r];
             closedTrades := closedTrades p;
             totalPL := totalPL p;
             createdAt := createdAt p |}).
Proof.
  intros <-%loaded_of_run. rewrite run_buyStock, run_buyOption. simpl. split.
  - destruct (Qgtb (shares * price) _); simpl; [discriminate | ].
    by intros r [= <-].
  - destruct (Qgtb (premium * 100 * contracts) _); simpl; [discriminate | ].
    by intros r [= <-].
Qed.

Lemma open_success_frame_witness :
  persisted (run (buyStock "AAPL" 100 150 clk1) fresh0).2 =
  Some {| balance := (1000000 - 100 * 150)%Q;
          openPositions :=
            [Stock "1700000000001" "AAPL" 100 150 "2023-11-14T22:13:20.001Z"
                   (100 * 150)%Q];
          closedTrades := [];
          totalPL := 0;
          createdAt := "2023-11-14T22:13:20.000Z" |}.
Proof.
  exact (proj1 (open_success_frame "AAPL" "call" "2026-01-01" 100 150 250 5 10
                  clk1 fresh0 (initializePortfolio clk0) eq_refl)
           _ eq_refl).
Defined.

(** ** Failing calls *)

(** C4: when a call throws, whatever the error, nothing of the ledger has
    changed.  If the store held a portfolio, the store after the call is the
    store before it.  In every case (also when the call itself had to create
    the file) a later [loadPortfolio] finds the same balance, open
    positions, closed trades and realised P/L as it would have found
    before. *)
Theorem failed_call_leaves_ledger (op : Op) (clk : Clock) (s : Store) (e : Error) :
  (run (perform op clk) s).1 = Err e →
  (∀ p, persisted s = Some p → (run (perform op clk) s).2 = s) ∧
  (∀ clk' p p',
     (run (loadPortfolio clk') s).1 = Ok p →
     (run (loadPortfolio clk') (run (perform op clk) s).2).1 = Ok p' →
     balance p' = balance p ∧ openPositions p' = openPositions p ∧
     closedTrades p' = closedTrades p ∧ totalPL p' = totalPL p).
Proof.
  intros Herr. rewrite (run_perform_err _ _ _ _ Herr). split.
  - intros p Hp. by apply after_load_persisted with p.
  - intros clk' p p' <-%loaded_of_run <-%loaded_of_run.
    unfold loaded at 1 3 5 7. rewrite persisted_after_load.
    unfold loaded. by destruct (persisted s).
Qed.

Lemma failed_call_leaves_ledger_witness :
  (run (perform (BuyStock "NVDA" 1000 2000) clk1) fresh0).2 = fresh0.
Proof.
  exact (proj1 (failed_call_leaves_ledger (BuyStock "NVDA" 1000 2000) clk1 fresh0
                  (InsufficientFunds 1000000 (1000 * 2000)) eq_refl)
           (initializePortfolio clk0) eq_refl).
Defined.

(** ** Closing a position *)








(** ** Valuation *)

Lemma valuePosition_resolves getCurrentPrice pos :
  ∃ vp, valuePosition getCurrentPrice pos = Ok vp ∧ vp_position vp = pos.
Proof.
  unfold valuePosition.
  destruct (getCurrentPrice (pos_symbol pos)) as [price | e]; simpl.
  - destruct (is_stock pos); eauto.
  - eauto.
Qed.

Lemma valuePosition_fallback getCurrentPrice pos vp :
  valuePosition getCurrentPrice pos = Ok vp →
  (is_ok (getCurrentPrice (pos_symbol pos)) = false ∨ is_stock pos = false) →
  currentValue vp = pos_costBasis pos ∧ unrealizedPL vp = 0%Q ∧
  unrealizedPercent vp = Some 0%Q.
Proof.
  unfold valuePosition.
  destruct (getCurrentPrice (pos_symbol pos)) as [price | e]; simpl.
  - destruct (is_stock pos); intros [= <-] [? | ?]; done.
  - by intros [= <-] _.
Qed.

Lemma Promise_all_resolves {A B} (f : A → Result B) (xs : list A) :
  (∀ x, ∃ y, f x = Ok y) →
  ∃ ys, Promise_all f xs = Ok ys ∧ Forall2 (λ x y, f x = Ok y) xs ys.
Proof.
  intros Hf. induction xs as [ | x xs (ys & Hys & Hall)]; simpl.
  - exists []. by split.
  - destruct (Hf x) as (y & Hy). rewrite Hy, Hys. simpl.
    exists (y :: ys). split; [done | by constructor].
Qed.

Lemma valued_positions getCurrentPrice (poss : list Position) vps :
  Forall2 (λ pos vp, valuePosition getCurrentPrice pos = Ok vp) poss vps →
  vp_position <$> vps = poss ∧
  Forall (λ vp,
      (is_stock (vp_position vp) = true →
       is_ok (getCurrentPrice (pos_symbol (vp_position vp))) = false →
       currentValue vp = pos_costBasis (vp_position vp) ∧
       unrealizedPL vp = 0%Q ∧ unrealizedPercent vp = Some 0%Q) ∧
      (is_stock (vp_position vp) = false →
       currentValue vp = pos_costBasis (vp_position vp) ∧
       unrealizedPL vp = 0%Q))
    vps.
Proof.
  induction 1 as [ | pos vp poss vps Hvp _ [IHpos IHall]]; [by split | ].
  destruct (valuePosition_resolves getCurrentPrice pos) as (vp' & Hvp' & Hpos).
  assert (vp' = vp) as -> by congruence.
  split; [simpl; by f_equal | ]. constructor; [ | exact IHall].
  rewrite Hpos. split.
  - intros _ Hfail. apply (valuePosition_fallback _ _ _ Hvp). by left.
  - intros Hopt. destruct (valuePosition_fallback _ _ _ Hvp) as (? & ? & ?); auto.
Qed.

(** C8: [getPortfolio] resolves for every store and every price callback.
    Its view lists the open positions of the loaded portfolio [p] in order.
    A stock whose price lookup rejects is valued at its cost basis with
    zero unrealised P/L and percentage; an option is valued at its cost
    basis with zero unrealised P/L whatever the lookup does.  The totals
    are balance + sum of the current values (summed left to right from 0)
    and that value - 1,000,000. *)
Theorem getPortfolio_total_with_fallback
    (getCurrentPrice : string → Result Q) (clk : Clock) (s : Store) (p : Portfolio) :
  (run (loadPortfolio clk) s).1 = Ok p →
  ∃ v,
    (run (getPortfolio getCurrentPrice clk) s).1 = Ok v ∧
    vp_position <$> view_openPositions v = openPositions p ∧
    Forall (λ vp,
        (is_stock (vp_position vp) = true →
         is_ok (getCurrentPrice (pos_symbol (vp_position vp))) = false →
         currentValue vp = pos_costBasis (vp_position vp) ∧
         unrealizedPL vp = 0%Q ∧ unrealizedPercent vp = Some 0%Q) ∧
        (is_stock (vp_position vp) = false →
         currentValue vp = pos_costBasis (vp_position vp) ∧
         unrealizedPL vp = 0%Q))
      (view_openPositions v) ∧
    totalPortfolioValue v =
      (balance p + reduce_sum currentValue (view_openPositions v))%Q ∧
    totalReturn v = (totalPortfolioValue v - 1000000)%Q.
Proof.
  intros <-%loaded_of_run. unfold getPortfolio.
  rewrite run_abind, run_loadPortfolio.
  destruct (Promise_all_resolves (valuePosition getCurrentPrice)
              (openPositions (loaded clk s))) as (vps & Hvps & Hall).
  { intros pos. destruct (valuePosition_resolves getCurrentPrice pos) as (vp & ? & _).
    eauto. }
  simpl. rewrite Hvps. simpl. eexists. split; [reflexivity | ]. simpl.
  apply valued_positions in Hall as [Hposs Hvalued]. by repeat split.
Qed.

Lemma getPortfolio_total_with_fallback_witness :
  ∃ v,
    (run (getPortfolio (λ _, Err QuoteError) clk1) (File (Serialized two_lots))).1
      = Ok v ∧
    vp_position <$> view_openPositions v = openPositions two_lots ∧
    Forall (λ vp,
        (is_stock (vp_position vp) = true →
         is_ok (@Err Q QuoteError) = false →
         currentValue vp = pos_costBasis (vp_position vp) ∧
         unrealizedPL vp = 0%Q ∧ unrealizedPercent vp = Some 0%Q) ∧
        (is_stock (vp_position vp) = false →
         currentValue vp = pos_costBasis (vp_position vp) ∧
         unrealizedPL vp = 0%Q))
      (view_openPositions v) ∧
    totalPortfolioValue v =
      (500000 + reduce_sum currentValue (view_openPositions v))%Q ∧
    totalReturn v = (totalPortfolioValue v - 1000000)%Q.
Proof.
  exact (getPortfolio_total_with_fallback (λ _, Err QuoteError) clk1
           (File (Serialized two_lots)) two_lots eq_refl).
Defined.

(** ** Store recovery *)

(** C7 (what the code does): a file whose text is not JSON does not make
    [loadPortfolio] reject.  The [catch] clause takes the parser's
    exception like a missing file: the call resolves with a new portfolio
    and overwrites the file with it. *)
Theorem loadPortfolio_overwrites_unparsable_file (clk : Clock) :
  fs_readFile (File Garbage) = Ok Garbage ∧
  JSON_parse Garbage = Err SyntaxError ∧
  run (loadPortfolio clk) (File Garbage) =
    (Ok (initializePortfolio clk), File (Serialized (initializePortfolio clk))).
Proof. by repeat split. Qed.

(** ** Invariants over sequences of calls *)

Lemma perform_effect op clk s :
  ∃ p', persisted (run (perform op clk) s).2 = Some p' ∧
        effect op clk (loaded clk s) p'.
Proof.
  destruct op as [symbol shares price | symbol currentPrice
                 | symbol type strike expiration premium contracts
                 | positionId exitPremium | ]; cbv [perform]; rewrite run_amap.
  - rewrite run_buyStock. cbv zeta.
    destruct (Qgtb _ _) eqn:Hgt; simpl.
    + rewrite persisted_after_load. eauto.
    + apply Qgtb_false in Hgt. eauto.
  - destruct (findIndex (sells symbol) (openPositions (loaded clk s)))
      as [i | ] eqn:Hfind.
    + apply findIndex_Some in Hfind as (before & pos & after & Hl & _ & Hpos & Hb).
      rewrite (run_sellStock_first _ _ _ _ _ _ _ Hl Hpos Hb). simpl.
      eexists. split; [reflexivity | ]. right. by exists before, pos, after.
    + rewrite (run_sellStock_none _ _ _ _ Hfind). simpl.
      rewrite persisted_after_load. eauto.
  - rewrite run_buyOption. cbv zeta.
    destruct (Qgtb _ _) eqn:Hgt; simpl.
    + rewrite persisted_after_load. eauto.
    + apply Qgtb_false in Hgt. eauto.
  - destruct (findIndex (has_id positionId) (openPositions (loaded clk s)))
      as [i | ] eqn:Hfind.
    + apply findIndex_Some in Hfind as (before & pos & after & Hl & _ & Hpos & Hb).
      rewrite (run_closeOption_first _ _ _ _ _ _ _ Hl Hpos Hb). cbv zeta.
      destruct (is_stock pos); simpl.
      * rewrite persisted_after_load. eauto.
      * eexists. split; [reflexivity | ]. right. by exists before, pos, after.
    + rewrite (run_closeOption_none _ _ _ _ Hfind). simpl.
      rewrite persisted_after_load. eauto.
  - simpl. eauto.
Qed.

Lemma loaded_inv (P : Portfolio → Prop) clk s :
  P (initializePortfolio clk) →
  (∀ p, persisted s = Some p → P p) →
  P (loaded clk s).
Proof. unfold loaded. destruct (persisted s); auto. Qed.

Lemma run_trace_cons call calls s :
  run_trace (call :: calls) s =
  run_trace calls (run (perform call.2 call.1) s).2.
Proof. reflexivity. Qed.

(** Take a condition [G] on the calls still to come that passes to tails,
    and a property [P] of portfolios that holds of a new portfolio and that
    every call carries from the portfolio it loads to the one it persists.
    Then [P] holds after the whole list. *)
Lemma run_trace_inv (G : list (Clock * Op) → Prop)
    (P : list (Clock * Op) → Portfolio → Prop) calls s :
  (∀ call rest, G (call :: rest) → G rest) →
  (∀ clk rest, P rest (initializePortfolio clk)) →
  (∀ clk op rest p p',
     G ((clk, op) :: rest) → P ((clk, op) :: rest) p → effect op clk p p' →
     P rest p') →
  G calls →
  (∀ p, persisted s = Some p → P calls p) →
  calls ≠ [] ∨ is_Some (persisted s) →
  ∃ p, persisted (run_trace calls s) = Some p ∧ P [] p.
Proof.
  intros Htail Hnew Hstep. revert s.
  induction calls as [ | [clk op] calls IH]; intros s HG Hs Hsome.
  - destruct Hsome as [? | [p Hp]]; [done | ]. simpl. eauto.
  - rewrite run_trace_cons. simpl.
    destruct (perform_effect op clk s) as (p' & Hp' & Heff).
    apply IH; [by eapply Htail | | right; eauto].
    intros p'' Hp''. assert (p'' = p') as -> by congruence.
    apply (Hstep clk op calls (loaded clk s)); [done | | done].
    apply loaded_inv; auto.
Qed.

Lemma Qle_0_minus (x y : Q) : (x <= y → 0 <= y - x)%Q.
Proof. intros H. by apply Qle_minus_iff in H. Qed.

Lemma Qle_0_plus_mult (b q x : Q) : (0 <= b → 0 <= q → 0 <= x → 0 <= b + q * x)%Q.
Proof.
  intros Hb Hq Hx. replace 0%Q with (0 + 0)%Q by reflexivity.
  apply Qplus_le_compat; [done | by apply Qmult_le_0_compat].
Qed.

Lemma solvent_effect clk op p p' :
  nonneg_call (clk, op) → solvent p → effect op clk p p' → solvent p'.
Proof.
  intros Hcall [Hbal Hpos].
  destruct op as [symbol shares price | symbol currentPrice
                 | symbol type strike expiration premium contracts
                 | positionId exitPremium | ]; simpl in *.
  - intros [-> | [Hle ->]]; [done | ]. split; simpl.
    + by apply Qle_0_minus.
    + apply Forall_app. split; [done | by repeat constructor].
  - intros [-> | (before & pos & after & Hl & Hb' & Hl')]; [done | ].
    rewrite Hl in Hpos. apply Forall_app in Hpos as [Hbefore [Hq Hafter]%Forall_cons].
    split.
    + rewrite Hb'. by apply Qle_0_plus_mult.
    + rewrite Hl'. apply Forall_app. by split.
  - intros [-> | [Hle ->]]; [done | ]. split; simpl.
    + by apply Qle_0_minus.
    + apply Forall_app. split; [done | by repeat constructor].
  - intros [-> | (before & pos & after & Hl & Hb' & Hl')]; [done | ].
    rewrite Hl in Hpos. apply Forall_app in Hpos as [Hbefore [Hq Hafter]%Forall_cons].
    split.
    + rewrite Hb'. rewrite <- Qmult_assoc, (Qmult_comm 100), Qmult_assoc.
      rewrite (Qmult_comm exitPremium), <- Qmult_assoc.
      apply Qle_0_plus_mult; [done | done | ].
      by apply Qmult_le_0_compat.
    + rewrite Hl'. apply Forall_app. by split.
  - intros ->. split; [done | constructor].
Qed.

Lemma fresh_store_persisted (P : Portfolio → Prop) s :
  fresh_store s → (∀ clk, P (initializePortfolio clk)) →
  ∀ p, persisted s = Some p → P p.
Proof.
  intros [-> | [clk ->]] HP p; simpl; [discriminate | ].
  intros [= <-]. apply HP.
Qed.

(** C1, as the code has it: started from a fresh store, a sequence of calls
    in which no purchase has a negative number of shares or contracts and
    no sale or close has a negative price or premium leaves, after each of
    its calls, a persisted portfolio whose balance is not negative. *)
Theorem solvency_for_nonnegative_calls (calls : list (Clock * Op)) (s : Store) :
  fresh_store s →
  Forall nonneg_call calls →
  ∀ done rest, calls = done ++ rest → done ≠ [] →
  ∃ p, persisted (run_trace done s) = Some p ∧ (0 <= balance p)%Q.
Proof.
  intros Hfresh Hcalls done rest -> Hdone.
  apply Forall_app in Hcalls as [Hcalls _].
  destruct (run_trace_inv (Forall nonneg_call) (λ _, solvent) done s)
    as (p & Hp & Hsolvent & _).
  - by intros call rest' [_ ?]%Forall_cons.
  - intros clk _. split; [done | constructor].
  - intros clk op rest' p p' [Hcall _]%Forall_cons. by apply solvent_effect.
  - done.
  - apply fresh_store_persisted; [done | ]. intros clk. split; [done | constructor].
  - by left.
  - eauto.
Qed.

Lemma solvency_for_nonnegative_calls_witness :
  ∃ p, persisted (run_trace [(clk0, BuyStock "AAPL" 100 150);
                             (clk1, SellStock "AAPL" 160)] NoFile) = Some p ∧
       (0 <= balance p)%Q.
Proof.
  apply (solvency_for_nonnegative_calls
           [(clk0, BuyStock "AAPL" 100 150); (clk1, SellStock "AAPL" 160);
            (clk1, ResetPortfolio)]
           NoFile (or_introl eq_refl)) with (rest := [(clk1, ResetPortfolio)]).
  - repeat constructor; simpl; discriminate.
  - reflexivity.
  - discriminate.
Defined.

(** C1, as stated, fails: nothing checks the price a position is sold at.
    Spending the whole balance on a stock and selling it at a negative
    price leaves a negative balance. *)
Lemma solvency_counterexample :
  fresh_store NoFile ∧
  ∃ p, persisted (run_trace [(clk0, BuyStock "AAPL" 10000 100);
                             (clk1, SellStock "AAPL" (-1))] NoFile) = Some p ∧
       (balance p < 0)%Q.
Proof.
  split; [by left | ]. eexists. split; [reflexivity | ]. reflexivity.
Qed.

(** ** Position identifiers *)

Lemma toString_inj (n m : Z) : toString n = toString m → n = m.
Proof.
  unfold toString. intros Heq. apply DecimalZ.to_int_inj.
  assert (∀ z, NilZero.int_of_string (NilZero.string_of_int (Z.to_int z))
               = Some (Z.to_int z)) as Hparse.
  { intros z. apply NilZero.isi.
    - destruct z as [ | q | q]; simpl; try discriminate.
      intros [= Hnil]. by apply DecimalPos.Unsigned.to_uint_nonnil in Hnil.
    - destruct z as [ | q | q]; simpl; try discriminate.
      intros [= Hnil]. by apply DecimalPos.Unsigned.to_uint_nonnil in Hnil. }
  pose proof (Hparse n) as Hn. rewrite Heq, Hparse in Hn. congruence.
Qed.

Lemma ids_apart_effect clk op rest p p' :
  NoDup (open_stamps ((clk, op) :: rest)) →
  ids_apart (open_stamps ((clk, op) :: rest)) p →
  effect op clk p p' →
  ids_apart (open_stamps rest) p'.
Proof.
  assert (∀ (stamps : list Z) before (pos : Position) after,
            NoDup (pos_id <$> before ++ pos :: after) →
            Forall (λ pos, ∀ t, t ∈ stamps → pos_id pos ≠ toString t)
                   (before ++ pos :: after) →
            ∀ q, openPositions q = before ++ after →
            ids_apart stamps q) as Hremove.
  { intros stamps before pos after Hnd Hall q Hq.
    unfold ids_apart. rewrite Hq. split.
    - rewrite fmap_app in *. simpl in Hnd.
      apply NoDup_app in Hnd as (Hb & Hdisj & [_ Ha]%NoDup_cons).
      apply NoDup_app. repeat split; [done | | done].
      intros x Hx Hx'. apply (Hdisj x Hx). by right.
    - apply Forall_app in Hall as [? [_ ?]%Forall_cons]. by apply Forall_app. }
  assert (∀ stamps pos',
            NoDup (Date_now clk :: stamps) →
            ids_apart (Date_now clk :: stamps) p →
            pos_id pos' = toString (Date_now clk) →
            ∀ q, openPositions q = openPositions p ++ [pos'] →
            ids_apart stamps q) as Hadd.
  { intros stamps pos' [Hfresh _]%NoDup_cons [Hnd Hall] Hid q Hq.
    unfold ids_apart. rewrite Hq. split.
    - rewrite fmap_app. simpl. apply NoDup_app. repeat split; [done | | ].
      + intros x Hx [-> | []%elem_of_nil]%elem_of_cons.
        apply list_elem_of_fmap in Hx as (pos & Hpos & Hin).
        rewrite Forall_forall in Hall. apply (Hall pos Hin (Date_now clk)).
        * by left.
        * congruence.
      + by apply NoDup_singleton.
    - apply Forall_app. split.
      + eapply Forall_impl; [exact Hall | ]. intros pos Hpos t Ht.
        apply Hpos. by right.
      + repeat constructor. intros t Ht. rewrite Hid.
        intros <-%toString_inj. done. }
  assert (∀ stamp stamps, ids_apart (stamp :: stamps) p → ids_apart stamps p)
    as Hweaken.
  { intros stamp stamps [Hnd Hall]. split; [done | ].
    eapply Forall_impl; [exact Hall | ]. intros pos Hpos t Ht.
    apply Hpos. by right. }
  intros Hstamps Hp.
  destruct op as [symbol shares price | symbol currentPrice
                 | symbol type strike expiration premium contracts
                 | positionId exitPremium | ]; simpl in *.
  - intros [-> | [_ ->]]; [by eapply Hweaken | ].
    eapply Hadd; [exact Hstamps | exact Hp | | reflexivity]; reflexivity.
  - intros [-> | (before & pos & after & Hl & _ & Hl')]; [done | ].
    destruct Hp as [Hnd Hall]. rewrite Hl in Hnd, Hall.
    by eapply Hremove.
  - intros [-> | [_ ->]]; [by eapply Hweaken | ].
    eapply Hadd; [exact Hstamps | exact Hp | | reflexivity]; reflexivity.
  - intros [-> | (before & pos & after & Hl & _ & Hl')]; [done | ].
    destruct Hp as [Hnd Hall]. rewrite Hl in Hnd, Hall.
    by eapply Hremove.
  - intros ->. split; simpl; constructor.
Qed.

Lemma open_stamps_tail call rest :
  NoDup (open_stamps (call :: rest)) → NoDup (open_stamps rest).
Proof.
  destruct call as [clk []]; simpl; [ | done | | done | done];
    by intros [_ ?]%NoDup_cons.
Qed.

(** C9, as the code has it: started from a fresh store, a sequence of calls
    whose purchases read pairwise distinct values of [Date.now()] leaves
    open positions with pairwise distinct identifiers. *)
Theorem unique_ids_for_distinct_stamps (calls : list (Clock * Op)) (s : Store) :
  fresh_store s →
  NoDup (open_stamps calls) →
  ∀ p, persisted (run_trace calls s) = Some p →
       NoDup (pos_id <$> openPositions p).
Proof.
  intros Hfresh Hstamps p Hp.
  destruct calls as [ | call calls].
  { simpl in Hp. revert p Hp.
    apply fresh_store_persisted; [done | ]. intros clk. simpl. constructor. }
  destruct (run_trace_inv (λ l, NoDup (open_stamps l))
              (λ l, ids_apart (open_stamps l)) (call :: calls) s)
    as (p' & Hp' & Hnd & _).
  - apply open_stamps_tail.
  - intros clk rest. split; simpl; constructor.
  - intros clk op rest q q'. apply ids_apart_effect.
  - done.
  - apply fresh_store_persisted; [done | ]. intros clk. split; simpl; constructor.
  - by left.
  - congruence.
Qed.

Lemma unique_ids_for_distinct_stamps_witness :
  NoDup (pos_id <$>
    [Stock "1700000000000" "AAPL" 100 150 "2023-11-14T22:13:20.000Z" (100 * 150)%Q;
     Option "1700000000001" "call" "TSLA" 250 "2026-01-01" 10 5
            "2023-11-14T22:13:20.001Z" (5 * 100 * 10)%Q]).
Proof.
  apply (unique_ids_for_distinct_stamps
           [(clk0, BuyStock "AAPL" 100 150);
            (clk1, BuyOption "TSLA" "call" 250 "2026-01-01" 5 10)]
           NoFile (or_introl eq_refl)
           ltac:(simpl; apply NoDup_cons; split;
                 [ intros [[=] | []%elem_of_nil]%elem_of_cons
                 | apply NoDup_singleton ])
           {| balance := (1000000 - 100 * 150 - 5 * 100 * 10)%Q;
              openPositions :=
                [Stock "1700000000000" "AAPL" 100 150
                       "2023-11-14T22:13:20.000Z" (100 * 150)%Q;
                 Option "1700000000001" "call" "TSLA" 250 "2026-01-01" 10 5
                        "2023-11-14T22:13:20.001Z" (5 * 100 * 10)%Q];
              closedTrades := [];
              totalPL := 0;
              createdAt := "2023-11-14T22:13:20.000Z" |}
           eq_refl).
Defined.

(** C9, as stated, fails: two purchases made within one clock millisecond
    get the same identifier. *)
Lemma unique_ids_counterexample :
  fresh_store NoFile ∧
  ∃ p, persisted (run_trace [(clk0, BuyStock "AAPL" 100 150);
                             (clk0, BuyStock "MSFT" 10 300)] NoFile) = Some p ∧
       pos_id <$> openPositions p = ["1700000000000"; "1700000000000"] ∧
       ¬ NoDup (pos_id <$> openPositions p).
Proof.
  split; [by left | ]. eexists. split; [reflexivity | ]. split; [reflexivity | ].
  simpl. intros [Hnotin _]%NoDup_cons. apply Hnotin. by left.
Qed.

(** ** Two calls in flight *)








Lemma open_keeps_balance op clk p p' :
  is_open op = true → effect op clk p p' →
  (0 <= balance p)%Q → (0 <= balance p')%Q.
Proof.
  destruct op; simpl; try discriminate; intros _ [-> | [Hle ->]] Hbal;
    try done; simpl; by apply Qle_0_minus.
Qed.

Lemma run_open_balance op clk s :
  is_open op = true →
  (∀ q, persisted s = Some q → (0 <= balance q)%Q) →
  ∃ p', persisted (run (perform op clk) s).2 = Some p' ∧ (0 <= balance p')%Q.
Proof.
  intros Hopen Hs. destruct (perform_effect op clk s) as (p' & Hp' & Heff).
  exists p'. split; [done | ].
  apply (open_keeps_balance _ _ _ _ Hopen Heff).
  by apply (loaded_inv (λ q, (0 <= balance q)%Q)).
Qed.







(** When the two writes overlap, the file can end as neither call wrote
    it: both purchases open the file before either puts its text, and the
    text put last is the shorter one.  Both calls return success and the
    file no longer parses. *)
Example overlapping_writes_leave_a_mixture :
  ∃ ra rb,
    concurrent [(true, true); (false, true); (true, true); (false, true);
                (true, true); (false, false)]
               (Running (perform (BuyStock "AAPL" 6000 100) clk0))
               (Running (perform (BuyStock "MSFT" 60 100) clk1))
               (disk_of fresh0)
      = Some (Running (Return ra), Running (Return rb), Text Garbage) ∧
    is_ok ra = true ∧ is_ok rb = true.
Proof. eexists _, _. by repeat split. Qed.

(** * Further properties of the ledger *)

Lemma perform_transition op clk s :
  ∃ p', persisted (run (perform op clk) s).2 = Some p' ∧
        Transition clk (loaded clk s) op (run (perform op clk) s).1 p'.
Proof.
  destruct op as [symbol shares price | symbol currentPrice
                 | symbol type strike expiration premium contracts
                 | positionId exitPremium | ]; cbv [perform]; rewrite run_amap.
  - rewrite run_buyStock. cbv zeta.
    destruct (Qgtb _ _) eqn:Hgt; simpl.
    + rewrite persisted_after_load. eexists. split; [done | constructor].
    + apply Qgtb_false in Hgt. eexists. split; [done | ].
      by apply (tr_opened clk _ (BuyStock symbol shares price)
                  (Stock (toString (Date_now clk)) symbol shares price
                         (toISOString clk) (shares * price)%Q)).
  - destruct (findIndex (sells symbol) (openPositions (loaded clk s)))
      as [i | ] eqn:Hfind.
    + apply findIndex_Some in Hfind as (before & pos & after & Hl & _ & Hpos & Hb).
      rewrite (run_sellStock_first _ _ _ _ _ _ _ Hl Hpos Hb). simpl.
      eexists. split; [done | ].
      by apply (tr_closed clk _ (SellStock symbol currentPrice) before pos after
                  currentPrice (pos_quantity pos * currentPrice)%Q).
    + rewrite (run_sellStock_none _ _ _ _ Hfind). simpl.
      rewrite persisted_after_load. eexists. split; [done | constructor].
  - rewrite run_buyOption. cbv zeta.
    destruct (Qgtb _ _) eqn:Hgt; simpl.
    + rewrite persisted_after_load. eexists. split; [done | constructor].
    + apply Qgtb_false in Hgt. eexists. split; [done | ].
      by apply (tr_opened clk _
                  (BuyOption symbol type strike expiration premium contracts)
                  (Option (toString (Date_now clk)) type symbol strike expiration
                          contracts premium (toISOString clk)
                          (premium * 100 * contracts)%Q)).
  - destruct (findIndex (has_id positionId) (openPositions (loaded clk s)))
      as [i | ] eqn:Hfind.
    + apply findIndex_Some in Hfind as (before & pos & after & Hl & _ & Hpos & Hb).
      rewrite (run_closeOption_first _ _ _ _ _ _ _ Hl Hpos Hb). cbv zeta.
      destruct (is_stock pos) eqn:Hstock; simpl.
      * rewrite persisted_after_load. eexists. split; [done | constructor].
      * eexists. split; [done | ].
        apply (tr_closed clk _ (CloseOption positionId exitPremium) before pos
                 after exitPremium (exitPremium * 100 * pos_quantity pos)%Q);
          try done.
        simpl. by rewrite Hstock.
    + rewrite (run_closeOption_none _ _ _ _ Hfind). simpl.
      rewrite persisted_after_load. eexists. split; [done | constructor].
  - simpl. eexists. split; [done | constructor].
Qed.

(** A property of portfolios that holds of a new portfolio and that every
    transition keeps holds of whatever a sequence of calls persists. *)
Lemma run_trace_transitions (P : Portfolio → Prop) calls s :
  (∀ clk, P (initializePortfolio clk)) →
  (∀ clk op r p p', P p → Transition clk p op r p' → P p') →
  (∀ p, persisted s = Some p → P p) →
  ∀ p, persisted (run_trace calls s) = Some p → P p.
Proof.
  intros Hnew Hstep. revert s.
  induction calls as [ | [clk op] calls IH]; intros s Hs; [done | ].
  rewrite run_trace_cons. simpl. apply IH.
  destruct (perform_transition op clk s) as (p' & Hp' & Htr).
  intros p'' Hp''. assert (p'' = p') as -> by congruence.
  apply (Hstep _ _ _ _ _ (loaded_inv P clk s (Hnew clk) Hs) Htr).
Qed.

(** ** Sums as [reduce] computes them *)

Lemma reduce_sum_snoc {A} (f : A → Q) (l : list A) (x : A) :
  reduce_sum f (l ++ [x]) = (reduce_sum f l + f x)%Q.
Proof. unfold reduce_sum. by rewrite fold_left_app. Qed.

Lemma fold_sum_from {A} (f : A → Q) (l : list A) (a : Q) :
  (fold_left (λ sum x, sum + f x) l a == a + reduce_sum f l)%Q.
Proof.
  unfold reduce_sum. revert a. induction l as [ | x l IH]; intros a; simpl.
  - lra.
  - rewrite (IH (a + f x)%Q), (IH (0 + f x)%Q). lra.
Qed.

Lemma reduce_sum_cons {A} (f : A → Q) (x : A) (l : list A) :
  (reduce_sum f (x :: l) == f x + reduce_sum f l)%Q.
Proof. unfold reduce_sum at 1. simpl. rewrite fold_sum_from. lra. Qed.

Lemma reduce_sum_app {A} (f : A → Q) (l1 l2 : list A) :
  (reduce_sum f (l1 ++ l2) == reduce_sum f l1 + reduce_sum f l2)%Q.
Proof.
  unfold reduce_sum at 1. rewrite fold_left_app, fold_sum_from. reflexivity.
Qed.

(** ** Invariants of the records *)

(** The realised P/L is the sum of the profits of the closed trades, added
    up in the order the trades were closed: after any sequence of calls on
    a fresh store, [totalPL] is [closedTrades.reduce((s, t) => s +
    t.profitLoss, 0)], term for term. *)
Theorem totalPL_is_sum_of_closed_trades (calls : list (Clock * Op)) (s : Store) :
  fresh_store s →
  ∀ p, persisted (run_trace calls s) = Some p →
       totalPL p = reduce_sum profitLoss (closedTrades p).
Proof.
  intros Hfresh.
  apply (run_trace_transitions
           (λ p, totalPL p = reduce_sum profitLoss (closedTrades p))).
  - done.
  - intros clk op r p p' Hp Htr. destruct Htr; simpl; try done.
    by rewrite reduce_sum_snoc, Hp.
  - by apply fresh_store_persisted.
Qed.

Lemma totalPL_is_sum_of_closed_trades_witness :
  totalPL (mkPortfolio (1000000 - 100 * 150 + 100 * 160) []
             [closed_trade (Stock "1700000000000" "AAPL" 100 150
                                  "2023-11-14T22:13:20.000Z" (100 * 150))
                           160 (100 * 160) clk1]
             (0 + (100 * 160 - 100 * 150)) "2023-11-14T22:13:20.000Z")
  = reduce_sum profitLoss
      [closed_trade (Stock "1700000000000" "AAPL" 100 150
                           "2023-11-14T22:13:20.000Z" (100 * 150))
                    160 (100 * 160) clk1].
Proof.
  exact (totalPL_is_sum_of_closed_trades
           [(clk0, BuyStock "AAPL" 100 150); (clk1, SellStock "AAPL" 160)]
           NoFile (or_introl eq_refl) _ eq_refl).
Defined.

Lemma records_after_calls calls s :
  fresh_store s →
  ∀ p, persisted (run_trace calls s) = Some p →
       Forall (λ pos, pos_costBasis pos = cost_of pos) (openPositions p) ∧
       Forall (λ t,
           pos_costBasis (ct_position t) = cost_of (ct_position t) ∧
           proceeds t = proceeds_of t ∧
           profitLoss t = (proceeds t - pos_costBasis (ct_position t))%Q ∧
           percentReturn t =
             js_percent (profitLoss t) (pos_costBasis (ct_position t)))
         (closedTrades p).
Proof.
  intros Hfresh.
  apply (run_trace_transitions
    (λ p, Forall (λ pos, pos_costBasis pos = cost_of pos) (openPositions p) ∧
          Forall (λ t,
              pos_costBasis (ct_position t) = cost_of (ct_position t) ∧
              proceeds t = proceeds_of t ∧
              profitLoss t = (proceeds t - pos_costBasis (ct_position t))%Q ∧
              percentReturn t =
                js_percent (profitLoss t) (pos_costBasis (ct_position t)))
            (closedTrades p))).
  - intros clk. split; constructor.
  - intros clk op r p p' [Hopen Hclosed] Htr.
    destruct Htr as [op e | op pos Hnew Hle
                    | op before pos after exit gain Hl Hsel Hb Hclose | ]; simpl.
    + done.
    + split; [ | done]. apply Forall_app. split; [done | ].
      repeat constructor. destruct op; simpl in Hnew; try discriminate;
        by injection Hnew as <-.
    + rewrite Hl in Hopen.
      apply Forall_app in Hopen as [Hbefore [Hpos Hafter]%Forall_cons].
      split; [by apply Forall_app | ].
      apply Forall_app. split; [done | ]. repeat constructor; simpl; try done.
      unfold proceeds_of. simpl.
      destruct op; simpl in Hsel, Hclose; try discriminate.
      * injection Hclose as <- <-. unfold sells in Hsel.
        by destruct pos; simpl in *.
      * destruct pos; simpl in *; [discriminate | ]. by injection Hclose as <- <-.
    + split; constructor.
  - apply fresh_store_persisted; [done | ]. intros clk. split; constructor.
Qed.

(** Every record a sequence of calls on a fresh store leaves in the file
    is consistent with its own fields: an open position carries costBasis
    = shares * entryPrice (entryPremium * 100 * contracts for an option),
    and a closed trade carries, besides the cost basis of its position,
    proceeds = shares * exit price (exit premium * 100 * contracts),
    profitLoss = proceeds - costBasis and, when the cost basis is not zero,
    percentReturn = profitLoss / costBasis * 100; when the cost basis is
    zero the file holds no number for percentReturn. *)
Theorem records_are_consistent (calls : list (Clock * Op)) (s : Store) :
  fresh_store s →
  ∀ p, persisted (run_trace calls s) = Some p →
       Forall (λ pos, pos_costBasis pos = cost_of pos) (openPositions p) ∧
       Forall (λ t,
           pos_costBasis (ct_position t) = cost_of (ct_position t) ∧
           proceeds t = proceeds_of t ∧
           profitLoss t = (proceeds t - pos_costBasis (ct_position t))%Q ∧
           (¬ (pos_costBasis (ct_position t) == 0)%Q →
            percentReturn t =
              Some ((profitLoss t / pos_costBasis (ct_position t)) * 100)%Q) ∧
           ((pos_costBasis (ct_position t) == 0)%Q →
            percentReturn t = None))
         (closedTrades p).
Proof.
  intros Hfresh p Hp.
  destruct (records_after_calls calls s Hfresh p Hp) as [Hopen Hclosed].
  split; [done | ]. eapply Forall_impl; [exact Hclosed | ].
  intros t (Hcost & Hproceeds & Hprofit & Hpercent). rewrite Hpercent.
  repeat split; try done.
  - apply js_percent_nonzero.
  - apply js_percent_zero.
Qed.

Lemma records_are_consistent_witness :
  match persisted (run_trace [(clk0, BuyOption "TSLA" "call" 250 "2026-01-01" 5 10);
                              (clk0, BuyStock "AAPL" 0 150);
                              (clk1, CloseOption "1700000000000" 8);
                              (clk1, SellStock "AAPL" 160)] NoFile) with
  | Some p =>
      Forall (λ pos, pos_costBasis pos = cost_of pos) (openPositions p) ∧
      Forall (λ t,
          pos_costBasis (ct_position t) = cost_of (ct_position t) ∧
          proceeds t = proceeds_of t ∧
          profitLoss t = (proceeds t - pos_costBasis (ct_position t))%Q ∧
          (¬ (pos_costBasis (ct_position t) == 0)%Q →
           percentReturn t =
             Some ((profitLoss t / pos_costBasis (ct_position t)) * 100)%Q) ∧
          ((pos_costBasis (ct_position t) == 0)%Q →
           percentReturn t = None))
        (closedTrades p)
  | None => False
  end.
Proof.
  simpl.
  exact (records_are_consistent
           [(clk0, BuyOption "TSLA" "call" 250 "2026-01-01" 5 10);
            (clk0, BuyStock "AAPL" 0 150);
            (clk1, CloseOption "1700000000000" 8);
            (clk1, SellStock "AAPL" 160)]
           NoFile (or_introl eq_refl) _ eq_refl).
Defined.

Lemma conservation_step clk op r p p' :
  (balance p + reduce_sum pos_costBasis (openPositions p)
     == 1000000 + totalPL p)%Q →
  Transition clk p op r p' →
  (balance p' + reduce_sum pos_costBasis (openPositions p')
     == 1000000 + totalPL p')%Q.
Proof.
  intros Hp Htr.
  destruct Htr as [op e | op pos Hnew Hle
                  | op before pos after exit gain Hl Hsel Hb Hclose | ]; simpl.
  - done.
  - rewrite reduce_sum_snoc. lra.
  - rewrite Hl in Hp. rewrite reduce_sum_app in *.
    rewrite reduce_sum_cons in Hp. lra.
  - unfold reduce_sum. simpl. lra.
Qed.

Lemma conservation_after_calls calls s :
  fresh_store s →
  ∀ p, persisted (run_trace calls s) = Some p →
       (balance p + reduce_sum pos_costBasis (openPositions p)
          == 1000000 + totalPL p)%Q.
Proof.
  intros Hfresh.
  apply (run_trace_transitions
           (λ p, (balance p + reduce_sum pos_costBasis (openPositions p)
                    == 1000000 + totalPL p)%Q)).
  - intros clk. unfold reduce_sum. simpl. lra.
  - intros clk op r p p'. apply conservation_step.
  - apply fresh_store_persisted; [done | ].
    intros clk. unfold reduce_sum. simpl. lra.
Qed.

(** Cash is conserved: after any sequence of calls on a fresh store, the
    balance plus the cost bases of the open positions equals the initial
    1,000,000 plus the realised P/L.  No call creates or destroys money,
    whatever its arguments. *)
Theorem cash_is_conserved (calls : list (Clock * Op)) (s : Store) :
  fresh_store s →
  ∀ p, persisted (run_trace calls s) = Some p →
       (balance p + reduce_sum pos_costBasis (openPositions p)
          == 1000000 + totalPL p)%Q.
Proof. apply conservation_after_calls. Qed.

Lemma cash_is_conserved_witness :
  match persisted (run_trace [(clk0, BuyStock "AAPL" 100 150);
                              (clk1, BuyStock "MSFT" 10 300);
                              (clk1, SellStock "AAPL" (-1))] NoFile) with
  | Some p =>
      (balance p + reduce_sum pos_costBasis (openPositions p)
         == 1000000 + totalPL p)%Q
  | None => False
  end.
Proof.
  simpl.
  exact (cash_is_conserved
           [(clk0, BuyStock "AAPL" 100 150); (clk1, BuyStock "MSFT" 10 300);
            (clk1, SellStock "AAPL" (-1))]
           NoFile (or_introl eq_refl) _ eq_refl).
Defined.

(** The trade history is append-only and the creation date is kept: a
    sequence of calls without [resetPortfolio], on a store that holds a
    portfolio, leaves the earlier closed trades in place, unchanged and in
    order, in front of whatever it adds, and leaves [createdAt] as it
    was. *)
Theorem history_is_append_only (calls : list (Clock * Op)) (s : Store) (p : Portfolio) :
  persisted s = Some p →
  Forall (λ call, is_reset call.2 = false) calls →
  ∃ p', persisted (run_trace calls s) = Some p' ∧
        closedTrades p `prefix_of` closedTrades p' ∧
        createdAt p' = createdAt p.
Proof.
  revert s p. induction calls as [ | [clk op] calls IH]; intros s p Hp Hcalls.
  - exists p. by repeat split.
  - apply Forall_cons in Hcalls as [Hop Hcalls]. rewrite run_trace_cons. simpl in *.
    destruct (perform_transition op clk s) as (p1 & Hp1 & Htr).
    rewrite (loaded_of_run clk s p) in Htr
      by (by rewrite run_loadPortfolio; unfold loaded; rewrite Hp).
    destruct (IH _ _ Hp1 Hcalls) as (p' & Hp' & Hpre & Hdate).
    exists p'. split; [done | ].
    destruct Htr; simpl in *; try discriminate.
    + done.
    + done.
    + split; [ | done]. etrans; [ | exact Hpre]. by apply prefix_app_r.
Qed.

Lemma history_is_append_only_witness :
  ∃ p', persisted (run_trace [(clk1, SellStock "AAPL" 160);
                              (clk1, CloseOption "1700000000100" 8)]
                             (File (Serialized two_lots))) = Some p' ∧
        closedTrades two_lots `prefix_of` closedTrades p' ∧
        createdAt p' = createdAt two_lots.
Proof.
  apply (history_is_append_only
           [(clk1, SellStock "AAPL" 160); (clk1, CloseOption "1700000000100" 8)]
           (File (Serialized two_lots)) two_lots eq_refl).
  repeat constructor.
Defined.

(** ** Calls on a store without a portfolio *)

Lemma run_after_load {A} (k : Portfolio → Async A) clk s :
  run (let* portfolio := loadPortfolio clk in k portfolio) s =
  run (k (loaded clk s)) (after_load clk s).
Proof. by rewrite run_abind, run_loadPortfolio. Qed.

(** A missing file and a file that does not parse are, to every call, a
    file holding a new portfolio created at the time of the call: each of
    the five mutating calls and [getPortfolio] returns and persists exactly
    what it would on that file. *)
Theorem store_without_portfolio_acts_as_new
    (op : Op) (getCurrentPrice : string → Result Q) (clk : Clock) (s : Store) :
  persisted s = None →
  run (perform op clk) s =
    run (perform op clk) (File (Serialized (initializePortfolio clk))) ∧
  run (getPortfolio getCurrentPrice clk) s =
    run (getPortfolio getCurrentPrice clk)
        (File (Serialized (initializePortfolio clk))).
Proof.
  intros Hnone.
  assert (loaded clk s = initializePortfolio clk) as Hl
    by (unfold loaded; by rewrite Hnone).
  assert (after_load clk s = File (Serialized (initializePortfolio clk))) as Ha
    by (unfold after_load; by rewrite Hnone).
  split.
  - destruct op; cbv [perform]; rewrite !run_amap.
    + unfold buyStock. by rewrite !run_after_load, Hl, Ha.
    + unfold sellStock. by rewrite !run_after_load, Hl, Ha.
    + unfold buyOption. by rewrite !run_after_load, Hl, Ha.
    + unfold closeOption. by rewrite !run_after_load, Hl, Ha.
    + done.
  - unfold getPortfolio. by rewrite !run_after_load, Hl, Ha.
Qed.

Lemma store_without_portfolio_acts_as_new_witness :
  run (perform (BuyStock "AAPL" 100 150) clk1) (File Garbage) =
    run (perform (BuyStock "AAPL" 100 150) clk1)
        (File (Serialized (initializePortfolio clk1))) ∧
  run (getPortfolio (λ _, Err QuoteError) clk1) (File Garbage) =
    run (getPortfolio (λ _, Err QuoteError) clk1)
        (File (Serialized (initializePortfolio clk1))).
Proof.
  exact (store_without_portfolio_acts_as_new (BuyStock "AAPL" 100 150)
           (λ _, Err QuoteError) clk1 (File Garbage) eq_refl).
Defined.

(** ** More on valuation *)

Lemma run_getPortfolio getCurrentPrice clk s :
  ∃ vps,
    Forall2 (λ pos vp, valuePosition getCurrentPrice pos = Ok vp)
            (openPositions (loaded clk s)) vps ∧
    run (getPortfolio getCurrentPrice clk) s =
    (Ok {| view_balance := balance (loaded clk s);
           view_openPositions := vps;
           view_closedTrades := closedTrades (loaded clk s);
           view_totalPL := totalPL (loaded clk s);
           totalUnrealizedPL := reduce_sum unrealizedPL vps;
           totalPortfolioValue :=
             (balance (loaded clk s) + reduce_sum currentValue vps)%Q;
           totalReturn :=
             (balance (loaded clk s) + reduce_sum currentValue vps - 1000000)%Q;
           totalReturnPercent :=
             (((balance (loaded clk s) + reduce_sum currentValue vps - 1000000)
               / 1000000) * 100)%Q |},
     after_load clk s).
Proof.
  destruct (Promise_all_resolves (valuePosition getCurrentPrice)
              (openPositions (loaded clk s))) as (vps & Hvps & Hall).
  { intros pos. destruct (valuePosition_resolves getCurrentPrice pos) as (vp & ? & _).
    eauto. }
  exists vps. split; [done | ].
  unfold getPortfolio. rewrite run_after_load. simpl. by rewrite Hvps.
Qed.

(** [getPortfolio] only reads: on a store that holds a portfolio it leaves
    the store as it is, whatever the price callback does, and its view
    copies the balance, the closed trades and the realised P/L and has one
    entry per open position. *)
Theorem getPortfolio_reads_only
    (getCurrentPrice : string → Result Q) (clk : Clock) (s : Store) (p : Portfolio) :
  persisted s = Some p →
  ∃ v, run (getPortfolio getCurrentPrice clk) s = (Ok v, s) ∧
       view_balance v = balance p ∧
       view_closedTrades v = closedTrades p ∧
       view_totalPL v = totalPL p ∧
       length (view_openPositions v) = length (openPositions p).
Proof.
  intros Hp. destruct (run_getPortfolio getCurrentPrice clk s) as (vps & Hall & Hrun).
  rewrite Hrun. unfold loaded, after_load in *. rewrite Hp in *.
  eexists. split; [reflexivity | ]. simpl. repeat split.
  symmetry. by eapply Forall2_length.
Qed.

Lemma getPortfolio_reads_only_witness :
  ∃ v, run (getPortfolio (λ _, Ok 160%Q) clk1) (File (Serialized two_lots))
         = (Ok v, File (Serialized two_lots)) ∧
       view_balance v = balance two_lots ∧
       view_closedTrades v = closedTrades two_lots ∧
       view_totalPL v = totalPL two_lots ∧
       length (view_openPositions v) = length (openPositions two_lots).
Proof.
  exact (getPortfolio_reads_only (λ _, Ok 160%Q) clk1
           (File (Serialized two_lots)) two_lots eq_refl).
Defined.

(** A position whose price lookup resolves carries the price in its view
    entry; for a stock the entry has currentValue = shares * price,
    unrealizedPL = currentValue - costBasis and, when the cost basis is not
    zero, unrealizedPercent = unrealizedPL / costBasis * 100. *)
Theorem getPortfolio_values_quoted_stocks
    (getCurrentPrice : string → Result Q) (clk : Clock) (s : Store)
    (v : PortfolioView) :
  (run (getPortfolio getCurrentPrice clk) s).1 = Ok v →
  Forall (λ vp, ∀ price,
      getCurrentPrice (pos_symbol (vp_position vp)) = Ok price →
      quote vp = Some price ∧
      (is_stock (vp_position vp) = true →
       currentValue vp = (pos_quantity (vp_position vp) * price)%Q ∧
       unrealizedPL vp = (currentValue vp - pos_costBasis (vp_position vp))%Q ∧
       (¬ (pos_costBasis (vp_position vp) == 0)%Q →
        unrealizedPercent vp =
          Some ((unrealizedPL vp / pos_costBasis (vp_position vp)) * 100)%Q)))
    (view_openPositions v).
Proof.
  destruct (run_getPortfolio getCurrentPrice clk s) as (vps & Hall & Hrun).
  rewrite Hrun. simpl. intros [= <-]. simpl. clear Hrun.
  induction Hall as [ | pos vp poss vps Hvp _ IH]; [constructor | ].
  constructor; [ | exact IH].
  intros price. unfold valuePosition in Hvp.
  destruct (getCurrentPrice (pos_symbol pos)) as [price' | e] eqn:Hquote; simpl in Hvp.
  - destruct (is_stock pos) eqn:Hstock; injection Hvp as <-; simpl;
      rewrite Hquote; intros [= <-]; (split; [done | ]);
      rewrite Hstock; [ | done].
    intros _. repeat split. apply js_percent_nonzero.
  - injection Hvp as <-. simpl. by rewrite Hquote.
Qed.

Lemma getPortfolio_values_quoted_stocks_witness :
  Forall (λ vp, ∀ price,
      Ok 160%Q = Ok price →
      quote vp = Some price ∧
      (is_stock (vp_position vp) = true →
       currentValue vp = (pos_quantity (vp_position vp) * price)%Q ∧
       unrealizedPL vp = (currentValue vp - pos_costBasis (vp_position vp))%Q ∧
       (¬ (pos_costBasis (vp_position vp) == 0)%Q →
        unrealizedPercent vp =
          Some ((unrealizedPL vp / pos_costBasis (vp_position vp)) * 100)%Q)))
    [ {| vp_position := Stock "1700000000000" "AAPL" 100 150
                              "2023-11-14T22:13:20.000Z" (100 * 150)%Q;
         quote := Some 160%Q;
         currentValue := (100 * 160)%Q;
         unrealizedPL := (100 * 160 - 100 * 150)%Q;
         unrealizedPercent :=
           Some ((100 * 160 - 100 * 150) / (100 * 150) * 100)%Q |} ].
Proof.
  exact (getPortfolio_values_quoted_stocks (λ _, Ok 160%Q) clk1
           (run_trace [(clk0, BuyStock "AAPL" 100 150)] NoFile) _ eq_refl).
Defined.

Lemma valued_sum getCurrentPrice (poss : list Position) vps :
  Forall2 (λ pos vp, valuePosition getCurrentPrice pos = Ok vp) poss vps →
  (reduce_sum currentValue vps ==
   reduce_sum pos_costBasis poss + reduce_sum unrealizedPL vps)%Q.
Proof.
  induction 1 as [ | pos vp poss vps Hvp _ IH].
  - unfold reduce_sum. simpl. lra.
  - rewrite !reduce_sum_cons, IH.
    assert (currentValue vp == pos_costBasis pos + unrealizedPL vp)%Q as ->; [ | lra].
    unfold valuePosition in Hvp.
    destruct (getCurrentPrice (pos_symbol pos)) as [price | e]; simpl in Hvp.
    + destruct (is_stock pos); injection Hvp as <-; simpl; lra.
    + injection Hvp as <-. simpl. lra.
Qed.

(** The portfolio value shown is what was paid plus what is unrealised:
    for every store and price callback, totalPortfolioValue equals the
    balance plus the cost bases of the open positions plus
    totalUnrealizedPL. *)
Theorem portfolio_value_is_cost_plus_unrealized
    (getCurrentPrice : string → Result Q) (clk : Clock) (s : Store)
    (p : Portfolio) (v : PortfolioView) :
  (run (loadPortfolio clk) s).1 = Ok p →
  (run (getPortfolio getCurrentPrice clk) s).1 = Ok v →
  (totalPortfolioValue v ==
   balance p + reduce_sum pos_costBasis (openPositions p) + totalUnrealizedPL v)%Q.
Proof.
  intros <-%loaded_of_run.
  destruct (run_getPortfolio getCurrentPrice clk s) as (vps & Hall & Hrun).
  rewrite Hrun. simpl. intros [= <-]. simpl.
  rewrite (valued_sum _ _ _ Hall). lra.
Qed.

Lemma portfolio_value_is_cost_plus_unrealized_witness :
  ∃ v, (run (getPortfolio (λ _, Ok 160%Q) clk1) (File (Serialized two_lots))).1
         = Ok v ∧
       (totalPortfolioValue v ==
        500000 + reduce_sum pos_costBasis (openPositions two_lots)
        + totalUnrealizedPL v)%Q.
Proof.
  eexists. split; [reflexivity | ].
  exact (portfolio_value_is_cost_plus_unrealized (λ _, Ok 160%Q) clk1
           (File (Serialized two_lots)) two_lots _ eq_refl eq_refl).
Defined.

(** The total return shown is realised plus unrealised P/L: after any
    sequence of calls on a fresh store, and for every price callback, the
    view has totalReturn = totalPL + totalUnrealizedPL. *)
Theorem total_return_is_realized_plus_unrealized
    (calls : list (Clock * Op)) (s : Store)
    (getCurrentPrice : string → Result Q) (clk : Clock) (v : PortfolioView) :
  fresh_store s →
  (run (getPortfolio getCurrentPrice clk) (run_trace calls s)).1 = Ok v →
  (totalReturn v == view_totalPL v + totalUnrealizedPL v)%Q.
Proof.
  intros Hfresh.
  destruct (run_getPortfolio getCurrentPrice clk (run_trace calls s))
    as (vps & Hall & Hrun).
  rewrite Hrun. simpl. intros [= <-]. simpl.
  rewrite (valued_sum _ _ _ Hall).
  pose proof (loaded_inv
    (λ p, (balance p + reduce_sum pos_costBasis (openPositions p)
             == 1000000 + totalPL p)%Q) clk (run_trace calls s)) as Hcons.
  simpl in Hcons. lapply Hcons; [clear Hcons; intros Hcons | ].
  - specialize (Hcons (conservation_after_calls calls s Hfresh)). lra.
  - unfold reduce_sum. simpl. lra.
Qed.

Lemma total_return_is_realized_plus_unrealized_witness :
  ∃ v, (run (getPortfolio (λ _, Ok 170%Q) clk1)
            (run_trace [(clk0, BuyStock "AAPL" 100 150);
                        (clk0, BuyStock "MSFT" 10 300);
                        (clk1, SellStock "AAPL" 160)] NoFile)).1 = Ok v ∧
       (totalReturn v == view_totalPL v + totalUnrealizedPL v)%Q.
Proof.
  eexists. split; [reflexivity | ].
  exact (total_return_is_realized_plus_unrealized
           [(clk0, BuyStock "AAPL" 100 150); (clk0, BuyStock "MSFT" 10 300);
            (clk1, SellStock "AAPL" 160)]
           NoFile (λ _, Ok 170%Q) clk1 _ (or_introl eq_refl) eq_refl).
Defined.

(** ** What a call returns, and calls in sequence *)

(** What a successful call returns is what it has persisted: the
    [newBalance] of the response is the balance in the file; the position
    of a purchase is the last open position; after a close there is
    exactly one open position fewer than the call loaded, and the last
    closed trade in the file has the position, exit price, exit date,
    proceeds and profit of the trade returned, and its percentReturn
    whenever that is a finite number; [resetPortfolio] returns the
    portfolio it wrote. *)
Theorem response_matches_persisted (op : Op) (clk : Clock) (s : Store) (r : Response) :
  (run (perform op clk) s).1 = Ok r →
  ∃ p', persisted (run (perform op clk) s).2 = Some p' ∧
    match r with
    | Opened o =>
        open_newBalance o = balance p' ∧
        last (openPositions p') = Some (position o)
    | Closed c =>
        close_newBalance c = balance p' ∧
        S (length (openPositions p')) = length (openPositions (loaded clk s)) ∧
        ∃ t', last (closedTrades p') = Some t' ∧
              ct_position t' = ct_position (trade c) ∧
              ct_exit t' = ct_exit (trade c) ∧
              exitDate t' = exitDate (trade c) ∧
              proceeds t' = proceeds (trade c) ∧
              profitLoss t' = profitLoss (trade c) ∧
              (∀ percent, percentReturn (trade c) = Some percent →
                          percentReturn t' = Some percent)
    | WasReset q => p' = q
    end.
Proof.
  destruct (perform_transition op clk s) as (p' & Hp' & Htr).
  intros Hr. rewrite Hr in Htr. exists p'. split; [done | ].
  inversion Htr as [ | op' pos Hnew Hle | op' before pos after exit gain Hl | ];
    subst; simpl.
  - by rewrite last_snoc.
  - rewrite last_snoc, Hl, !length_app. simpl. split; [done | ].
    split; [lia | ]. eexists. by repeat split.
  - done.
Qed.

Lemma response_matches_persisted_witness :
  ∃ p', persisted (run (perform (SellStock "AAPL" 160) clk1)
                       (File (Serialized two_lots))).2 = Some p' ∧
        (500000 + 100 * 160)%Q = balance p' ∧
        S (length (openPositions p')) = 3 ∧
        ∃ t', last (closedTrades p') = Some t' ∧
              ct_position t' = Stock "1700000000200" "AAPL" 100 150
                                     "2023-11-14T22:13:20.200Z" 15000 ∧
              ct_exit t' = 160%Q ∧
              exitDate t' = "2023-11-14T22:13:20.001Z" ∧
              proceeds t' = (100 * 160)%Q ∧
              profitLoss t' = (100 * 160 - 15000)%Q ∧
              (∀ percent,
                 Some ((100 * 160 - 15000) / 15000 * 100)%Q = Some percent →
                 percentReturn t' = Some percent).
Proof.
  exact (response_matches_persisted (SellStock "AAPL" 160) clk1
           (File (Serialized two_lots)) _ eq_refl).
Defined.

(** Purchases never overdraw: a sequence made of [buyStock] and
    [buyOption] calls only, with any arguments at all (negative ones
    included), run on a store whose balance is not negative, leaves a
    balance that is not negative. *)
Theorem purchases_never_overdraw (calls : list (Clock * Op)) (s : Store) :
  Forall (λ call, is_open call.2 = true) calls →
  (∀ q, persisted s = Some q → (0 <= balance q)%Q) →
  ∀ p, persisted (run_trace calls s) = Some p → (0 <= balance p)%Q.
Proof.
  revert s. induction calls as [ | [clk op] calls IH]; intros s Hcalls Hs; [done | ].
  apply Forall_cons in Hcalls as [Hop Hcalls]. rewrite run_trace_cons.
  apply IH; [done | ]. simpl in *.
  destruct (run_open_balance op clk s Hop Hs) as (p' & Hp' & Hbal).
  intros q Hq. by assert (q = p') as -> by congruence.
Qed.

Lemma purchases_never_overdraw_witness :
  match persisted (run_trace [(clk0, BuyStock "AAPL" (-10) 150);
                              (clk1, BuyOption "TSLA" "call" 250 "2026-01-01" 5000 10);
                              (clk1, BuyStock "MSFT" 3000 (-300))] fresh0) with
  | Some p => (0 <= balance p)%Q
  | None => False
  end.
Proof.
  simpl.
  refine (purchases_never_overdraw
            [(clk0, BuyStock "AAPL" (-10) 150);
             (clk1, BuyOption "TSLA" "call" 250 "2026-01-01" 5000 10);
             (clk1, BuyStock "MSFT" 3000 (-300))]
            fresh0 _ _ _ eq_refl).
  - repeat constructor.
  - intros q [= <-]. simpl. discriminate.
Defined.

(** Buying a stock and then selling its symbol closes the position just
    bought, provided the symbol was not already held (otherwise the older
    lot is the one sold) and the purchase was affordable.  The trade's
    profit is shares * (sale price - purchase price); the balance and the
    realised P/L move by that amount and the open positions are as before
    the purchase.  At the purchase price the profit is zero. *)
Theorem buy_then_sell_stock
    (symbol : string) (shares price price' : Q) (clk clk' : Clock)
    (s : Store) (p : Portfolio) :
  (run (loadPortfolio clk) s).1 = Ok p →
  Forall (λ q, sells symbol q = false) (openPositions p) →
  (shares * price <= balance p)%Q →
  ∃ t p'',
    run (sellStock symbol price' clk')
        (run (buyStock symbol shares price clk) s).2
      = (Ok {| trade := t; close_newBalance := balance p'' |},
         File (Serialized p'')) ∧
    ct_position t = Stock (toString (Date_now clk)) symbol shares price
                          (toISOString clk) (shares * price)%Q ∧
    (profitLoss t == shares * (price' - price))%Q ∧
    (balance p'' == balance p + shares * (price' - price))%Q ∧
    (totalPL p'' == totalPL p + shares * (price' - price))%Q ∧
    openPositions p'' = openPositions p ∧
    closedTrades p'' = closedTrades p ++ [t].
Proof.
  intros <-%loaded_of_run Hnone Hle. rewrite run_buyStock. cbv zeta.
  apply Qgtb_false in Hle. rewrite Hle. cbn [snd].
  rewrite (run_sellStock_first symbol price' clk' _ (openPositions (loaded clk s))
             (Stock (toString (Date_now clk)) symbol shares price
                    (toISOString clk) (shares * price)%Q) []);
    [ | done | unfold sells; simpl; by rewrite String.eqb_refl | done].
  cbv zeta. eexists _, _.
  split; [apply (f_equal2 pair); [ | reflexivity]; reflexivity | ]. simpl.
  rewrite app_nil_r. repeat split; lra.
Qed.

Lemma buy_then_sell_stock_witness :
  ∃ t p'',
    run (sellStock "NVDA" 450 clk1)
        (run (buyStock "NVDA" 20 450 clk0) (File (Serialized two_lots))).2
      = (Ok {| trade := t; close_newBalance := balance p'' |},
         File (Serialized p'')) ∧
    ct_position t = Stock (toString (Date_now clk0)) "NVDA" 20 450
                          (toISOString clk0) (20 * 450)%Q ∧
    (profitLoss t == 20 * (450 - 450))%Q ∧
    (balance p'' == balance two_lots + 20 * (450 - 450))%Q ∧
    (totalPL p'' == totalPL two_lots + 20 * (450 - 450))%Q ∧
    openPositions p'' = openPositions two_lots ∧
    closedTrades p'' = closedTrades two_lots ++ [t].
Proof.
  apply (buy_then_sell_stock "NVDA" 20 450 450 clk0 clk1
           (File (Serialized two_lots)) two_lots eq_refl).
  - repeat constructor.
  - simpl. discriminate.
Defined.

(** Buying an option and then closing the identifier the purchase returned
    closes the position just bought, provided no open position already
    carried that identifier and the purchase was affordable.  The trade's
    profit is (exit premium - premium) * 100 * contracts; the balance and
    the realised P/L move by that amount and the open positions are as
    before the purchase. *)
Theorem buy_then_close_option
    (symbol type expiration : string) (strike premium contracts exitPremium : Q)
    (clk clk' : Clock) (s : Store) (p : Portfolio) :
  (run (loadPortfolio clk) s).1 = Ok p →
  Forall (λ q, has_id (toString (Date_now clk)) q = false) (openPositions p) →
  (premium * 100 * contracts <= balance p)%Q →
  ∃ o t p'',
    (run (buyOption symbol type strike expiration premium contracts clk) s).1
      = Ok o ∧
    run (closeOption (pos_id (position o)) exitPremium clk')
        (run (buyOption symbol type strike expiration premium contracts clk) s).2
      = (Ok {| trade := t; close_newBalance := balance p'' |},
         File (Serialized p'')) ∧
    ct_position t = position o ∧
    (profitLoss t == (exitPremium - premium) * 100 * contracts)%Q ∧
    (balance p'' == balance p + (exitPremium - premium) * 100 * contracts)%Q ∧
    (totalPL p'' == totalPL p + (exitPremium - premium) * 100 * contracts)%Q ∧
    openPositions p'' = openPositions p ∧
    closedTrades p'' = closedTrades p ++ [t].
Proof.
  intros <-%loaded_of_run Hnone Hle. rewrite run_buyOption. cbv zeta.
  apply Qgtb_false in Hle. rewrite Hle. cbn [fst snd].
  eexists _, _, _. split; [reflexivity | ]. cbn [position pos_id].
  rewrite (run_closeOption_first _ exitPremium clk' _ (openPositions (loaded clk s))
             (Option (toString (Date_now clk)) type symbol strike expiration
                     contracts premium (toISOString clk)
                     (premium * 100 * contracts)%Q) []);
    [ | done | unfold has_id; simpl; by rewrite String.eqb_refl | done].
  cbv zeta. cbn [is_stock].
  split; [apply (f_equal2 pair); [ | reflexivity]; reflexivity | ]. simpl.
  rewrite app_nil_r. repeat split; lra.
Qed.

Lemma buy_then_close_option_witness :
  ∃ o t p'',
    (run (buyOption "TSLA" "put" 200 "2026-01-01" 4 5 clk0)
         (File (Serialized two_lots))).1 = Ok o ∧
    run (closeOption (pos_id (position o)) 6 clk1)
        (run (buyOption "TSLA" "put" 200 "2026-01-01" 4 5 clk0)
             (File (Serialized two_lots))).2
      = (Ok {| trade := t; close_newBalance := balance p'' |},
         File (Serialized p'')) ∧
    ct_position t = position o ∧
    (profitLoss t == (6 - 4) * 100 * 5)%Q ∧
    (balance p'' == balance two_lots + (6 - 4) * 100 * 5)%Q ∧
    (totalPL p'' == totalPL two_lots + (6 - 4) * 100 * 5)%Q ∧
    openPositions p'' = openPositions two_lots ∧
    closedTrades p'' = closedTrades two_lots ++ [t].
Proof.
  apply (buy_then_close_option "TSLA" "put" "2026-01-01" 200 4 5 6 clk0 clk1
           (File (Serialized two_lots)) two_lots eq_refl).
  - repeat constructor.
  - simpl. discriminate.
Defined.

(** * The portfolio routes *)

Lemma run_settle {A B} (m : Async A) (f : Result A → Async B) s :
  run (settle m f) s = run (f (run m s).1) (run m s).2.
Proof. revert s. induction m as [r | k IH | d k IH]; intros s; simpl; auto. Qed.

Lemma run_respond call s :
  run (respond call) s =
  (Ok match (run call s).1 with
      | Ok result => {| status := 200; json := inr result |}
      | Err error => {| status := 400; json := inl (Thrown error) |}
      end,
   (run call s).2).
Proof. unfold respond. rewrite run_settle. by destruct (run call s).1. Qed.

Lemma respond_answers op clk s : answers (respond (perform op clk)) s.
Proof.
  unfold answers. rewrite run_respond. eexists _, _. split; [reflexivity | ].
  destruct (run (perform op clk) s).1 as [result | error] eqn:Hrun; simpl.
  - left. repeat split; [eauto | ].
    destruct (perform_effect op clk s) as (p' & Hp' & _). eauto.
  - right. repeat split; [eauto | ].
    intros p Hp. rewrite (run_perform_err _ _ _ _ Hrun).
    by apply after_load_persisted with p.
Qed.

Lemma reject_answers error s : answers (reject error) s.
Proof.
  unfold answers. eexists _, _. split; [reflexivity | ]. right. simpl. eauto.
Qed.

Lemma respond_passes_on call s : passes_on (respond call) call s.
Proof. unfold passes_on. apply run_respond. Qed.

(** Both mutating routes always respond, with status 200 or 400, and the
    answer is that of the portfolio call the request selects.
    POST /api/portfolio/trade passes on [buyStock(symbol, quantity, price)]
    for the action 'buy_stock' and [buyOption(symbol, type, strike,
    expiration, premium, quantity)] for 'buy_option' with option details;
    POST /api/portfolio/close passes on [closeOption(positionId,
    exitPremium)] when the id is not empty and the premium is present, and
    otherwise [sellStock(symbol, currentPrice)] when the symbol is not
    empty and the price is not zero.  Passing on means: 200 with the
    call's result when it returns, 400 with its error when it throws, and
    the file as the call leaves it.  Every other request is answered 400
    by the handler itself without reading or writing the file.  A 200
    leaves a portfolio in the file; a 400 leaves a file that held a
    portfolio exactly as it was. *)
Theorem routes_answer_with_the_call
    (trade : TradeBody) (close : CloseBody) (clk : Clock) (s : Store) :
  (answers (trade_route trade clk) s ∧ answers (close_route close clk) s) ∧
  ((action trade = "buy_stock" →
    passes_on (trade_route trade clk)
      (perform (BuyStock (tb_symbol trade) (tb_quantity trade) (tb_price trade))
               clk) s) ∧
   (∀ details,
      action trade = "buy_option" → optionDetails trade = Some details →
      passes_on (trade_route trade clk)
        (perform (BuyOption (tb_symbol trade) (od_type details)
                            (od_strike details) (od_expiration details)
                            (od_premium details) (tb_quantity trade)) clk) s) ∧
   (action trade = "buy_option" → optionDetails trade = None →
    run (trade_route trade clk) s =
    (Ok {| status := 400; json := inl (Thrown TypeError) |}, s)) ∧
   (action trade ≠ "buy_stock" → action trade ≠ "buy_option" →
    run (trade_route trade clk) s =
    (Ok {| status := 400; json := inl InvalidAction |}, s))) ∧
  ((∀ positionId exitPremium,
      truthy_string (cb_positionId close) = Some positionId →
      cb_exitPremium close = Some exitPremium →
      passes_on (close_route close clk)
        (perform (CloseOption positionId exitPremium) clk) s) ∧
   (∀ symbol currentPrice,
      truthy_string (cb_positionId close) = None ∨ cb_exitPremium close = None →
      truthy_string (cb_symbol close) = Some symbol →
      truthy_number (cb_currentPrice close) = Some currentPrice →
      passes_on (close_route close clk)
        (perform (SellStock symbol currentPrice) clk) s) ∧
   (truthy_string (cb_positionId close) = None ∨ cb_exitPremium close = None →
    truthy_string (cb_symbol close) = None ∨
    truthy_number (cb_currentPrice close) = None →
    run (close_route close clk) s =
    (Ok {| status := 400; json := inl InvalidCloseParameters |}, s))).
Proof.
  split; [split | split].
  - unfold trade_route. destruct (String.eqb (action trade) "buy_stock");
      [apply respond_answers | ].
    destruct (String.eqb (action trade) "buy_option"); [ | apply reject_answers].
    destruct (optionDetails trade); [apply respond_answers | apply reject_answers].
  - unfold close_route.
    destruct (truthy_string (cb_positionId close)), (cb_exitPremium close),
      (truthy_string (cb_symbol close)), (truthy_number (cb_currentPrice close));
      apply respond_answers || apply reject_answers.
  - unfold trade_route. split; [ | split; [ | split]].
    + intros ->. simpl. apply respond_passes_on.
    + intros details -> ->. simpl. apply respond_passes_on.
    + by intros -> ->.
    + intros Hstock%String.eqb_neq Hoption%String.eqb_neq.
      by rewrite Hstock, Hoption.
  - unfold close_route. split; [ | split].
    + intros positionId exitPremium -> ->. apply respond_passes_on.
    + intros symbol currentPrice Hoption -> ->.
      destruct Hoption as [-> | ->]; [apply respond_passes_on | ].
      destruct (truthy_string (cb_positionId close)); apply respond_passes_on.
    + intros [-> | ->] [-> | ->]; try done;
        by destruct (truthy_string (cb_positionId close)),
                    (truthy_string (cb_symbol close)).
Qed.

(** A stock position cannot be closed at price zero through the close
    route: when the request does not take the option branch and its
    [currentPrice] is 0, the handler answers 400 'Invalid close parameters'
    without reading or writing the file, whatever positions are open. *)
Theorem close_route_rejects_zero_price
    (body : CloseBody) (clk : Clock) (s : Store) (price : Q) :
  truthy_string (cb_positionId body) = None ∨ cb_exitPremium body = None →
  cb_currentPrice body = Some price →
  (price == 0)%Q →
  run (close_route body clk) s =
  (Ok {| status := 400; json := inl InvalidCloseParameters |}, s).
Proof.
  intros Hoption Hprice Hzero. unfold close_route.
  assert (truthy_number (cb_currentPrice body) = None) as ->.
  { rewrite Hprice. simpl. apply Qeq_bool_iff in Hzero. by rewrite Hzero. }
  destruct Hoption as [-> | ->].
  - by destruct (truthy_string (cb_symbol body)).
  - by destruct (truthy_string (cb_positionId body)),
                (truthy_string (cb_symbol body)).
Qed.

Lemma close_route_rejects_zero_price_witness :
  run (close_route {| cb_symbol := Some "AAPL"; cb_positionId := None;
                      cb_currentPrice := Some 0%Q; cb_exitPremium := None |}
                   clk1)
      (File (Serialized two_lots)) =
  (Ok {| status := 400; json := inl InvalidCloseParameters |},
   File (Serialized two_lots)).
Proof.
  apply (close_route_rejects_zero_price _ clk1 (File (Serialized two_lots)) 0%Q).
  - by left.
  - reflexivity.
  - reflexivity.
Defined.

(** * Screening detection *)

Lemma toLowerCase_app (a b : string) :
  toLowerCase (a +:+ b) = toLowerCase a +:+ toLowerCase b.
Proof. induction a as [ | c a IH]; simpl; [done | by rewrite IH]. Qed.

Lemma prefix_append (t b : string) : String.prefix t (t +:+ b) = true.
Proof.
  induction t as [ | c t IH]; simpl; [by destruct b | ].
  by destruct (ascii_dec c c).
Qed.

Lemma includes_prefix (s t : string) :
  String.prefix t s = true → includes s t = true.
Proof. destruct s; simpl; by intros ->. Qed.

Lemma includes_append (a t b : string) : includes (a +:+ t +:+ b) t = true.
Proof.
  induction a as [ | c a IH].
  - change (includes (t +:+ b) t = true). apply includes_prefix, prefix_append.
  - change (String.prefix t (String c a +:+ t +:+ b)
            || includes (a +:+ t +:+ b) t = true).
    rewrite IH. apply orb_true_r.
Qed.

(** A query that contains one of the trigger phrases, in any mix of upper
    and lower case and at any place in the text, is taken as a screening
    query. *)
Theorem needsMarketData_finds_phrase (before phrase after : string) :
  In (toLowerCase phrase) triggers →
  needsMarketData (before +:+ phrase +:+ after) = true.
Proof.
  intros Htrigger. unfold needsMarketData. apply existsb_exists.
  exists (toLowerCase phrase). split; [done | ].
  rewrite !toLowerCase_app. apply includes_append.
Qed.

Lemma needsMarketData_finds_phrase_witness :
  needsMarketData ("Show me the " +:+ "Top Movers" +:+ " today") = true.
Proof.
  apply (needsMarketData_finds_phrase "Show me the " "Top Movers" " today").
  simpl. left. reflexivity.
Defined.

(** * Reset, and what a close leaves alone *)

Lemma run_trace_app calls1 calls2 s :
  run_trace (calls1 ++ calls2) s = run_trace calls2 (run_trace calls1 s).
Proof. unfold run_trace. by rewrite fold_left_app. Qed.

(** [resetPortfolio] discards everything before it: whatever the store
    held (a portfolio, no file, a file that does not parse) and whatever
    calls came first, the calls after a reset behave as on a file holding
    a new portfolio created at the time of the reset. *)
Theorem reset_discards_history
    (earlier later : list (Clock * Op)) (clk : Clock) (s : Store) :
  run_trace (earlier ++ (clk, ResetPortfolio) :: later) s =
  run_trace later (File (Serialized (initializePortfolio clk))).
Proof. by rewrite run_trace_app, run_trace_cons. Qed.

(** [sellStock] never removes or alters an option, and [closeOption] never
    removes or alters a stock: whether the call succeeds or throws, the
    open positions of the other kind are, after it, the same and in the
    same order as in the portfolio it loaded. *)
Theorem closes_leave_other_kind (symbol positionId : string) (price : Q)
    (clk : Clock) (s : Store) :
  (∃ p', persisted (run (sellStock symbol price clk) s).2 = Some p' ∧
         List.filter (λ q, negb (is_stock q)) (openPositions p') =
         List.filter (λ q, negb (is_stock q)) (openPositions (loaded clk s))) ∧
  (∃ p', persisted (run (closeOption positionId price clk) s).2 = Some p' ∧
         List.filter is_stock (openPositions p') =
         List.filter is_stock (openPositions (loaded clk s))).
Proof.
  split.
  - destruct (perform_transition (SellStock symbol price) clk s) as (p' & Hp' & Htr).
    cbv [perform] in Hp'. rewrite run_amap in Hp'.
    exists p'. split.
    { by destruct (run (sellStock symbol price clk) s) as [[? | ?] ?]. }
    inversion Htr as [ | op' pos Hnew | op' before pos after exit gain Hl Hsel | ];
      subst; simpl in *; [done | discriminate | ].
    rewrite Hl, !List.filter_app. simpl.
    unfold sells in Hsel. by destruct (is_stock pos).
  - destruct (perform_transition (CloseOption positionId price) clk s)
      as (p' & Hp' & Htr).
    cbv [perform] in Hp'. rewrite run_amap in Hp'.
    exists p'. split.
    { by destruct (run (closeOption positionId price clk) s) as [[? | ?] ?]. }
    inversion Htr as [ | op' pos Hnew | op' before pos after exit gain Hl Hsel Hb Hc | ];
      subst; simpl in *; [done | discriminate | ].
    rewrite Hl, !List.filter_app. simpl.
    by destruct (is_stock pos).
Qed.
